(** * Sidebar order reconciler (SpaceTabs drag-and-drop)

    A shallow embedding of the drag-and-drop reordering code of the
    sidebar: the [onReorder] callback of [SpaceTabs], the [canDrop]
    predicate of the drop targets, the [onDrop] handler of
    [useDnDMonitor], and the tabs [SpaceTabs] renders, whose draggables
    are the drag items and containers the callback receives.

    JavaScript values are embedded as follows.
    - [string | ISidebarFolder] and [string | FolderDraggable] are tagged
      unions, the tag standing for the result of [typeof].
    - An optional field is an [option]; the truthiness test of an optional
      string ([if (item.spaceId)]) fails for [undefined] and for the empty
      string.
    - The React state the callback touches (sidebar items, opened folders,
      dragging item), the account data it writes and the source of
      [randomStr] are fields of an explicit [World], threaded through a
      small state monad. *)

From Stdlib Require Import String.
From stdpp Require Import base strings pretty list gmap.

Local Open Scope string_scope.
Local Open Scope list_scope.

(** ** Data model *)

Record ISidebarFolder := mkFolder {
  id : string;
  name : option string;
  content : list string;
}.

Inductive TSidebarItem :=
  | TSpace (s : string)
  | TFolder (f : ISidebarFolder).

Abbreviation SidebarItems := (list TSidebarItem).

Record FolderDraggable := mkFolderDraggable {
  folder : ISidebarFolder;
  spaceId : option string;
  open : option bool;
}.

Inductive SidebarDraggable :=
  | DSpace (s : string)
  | DFolder (fd : FolderDraggable).

(** [Instruction['type']] of the tree-item hitbox library: the three kinds
    the reconciler dispatches on, which are the instruction kinds of its
    contract, and the two it has no branch for, ['reparent'] (which
    [useDropTarget] blocks) and the blocked instruction. *)
Inductive InstructionType :=
  | ReorderAbove
  | ReorderBelow
  | MakeChild
  | Reparent
  | InstructionBlocked.

#[global] Instance ISidebarFolder_eq_dec : EqDecision ISidebarFolder.
Proof. solve_decision. Defined.
#[global] Instance TSidebarItem_eq_dec : EqDecision TSidebarItem.
Proof. solve_decision. Defined.
#[global] Instance FolderDraggable_eq_dec : EqDecision FolderDraggable.
Proof. solve_decision. Defined.
#[global] Instance SidebarDraggable_eq_dec : EqDecision SidebarDraggable.
Proof. solve_decision. Defined.
#[global] Instance InstructionType_eq_dec : EqDecision InstructionType.
Proof. solve_decision. Defined.

(** [{ ...f, content: c }] *)
Definition withContent (f : ISidebarFolder) (c : list string) : ISidebarFolder :=
  {| id := id f; name := name f; content := c |}.

(** The value of an optional string when it is truthy. *)
Definition truthy (o : option string) : option string :=
  match o with
  | Some s => if String.eqb s "" then None else Some s
  | None => None
  end.

(** ** World and effects *)

Inductive OpenedFolderAction :=
  | PUT (folderId : string)
  | DELETE (folderId : string).

Record World := mkWorld {
  sidebarItems : SidebarItems;
  openedFolder : gset string;
  draggingItem : option SidebarDraggable;
  accountData : list SidebarItems;
  entropy : nat → string;
  randCalls : nat;
}.

Definition M (A : Type) : Type := World → A * World.

#[global] Instance M_ret : MRet M := λ A a w, (a, w).
#[global] Instance M_bind : MBind M := λ A B k m w,
  let '(a, w') := m w in k a w'.

(** Modelled from the spec: the reducer of the opened-folder atom
    ([useOpenedSidebarFolderAtom]), the "is this folder open" local state
    keyed by folder id. [handleFolderToggle] reads it with
    [openedFolder.has(id)], so it is a set of folder ids; [DELETE] clears
    an id and [PUT] sets it. *)
Definition setOpenedFolder (a : OpenedFolderAction) : M unit := λ w,
  let opened := match a with
                | PUT i => {[ i ]} ∪ openedFolder w
                | DELETE i => openedFolder w ∖ {[ i ]}
                end in
  (tt, mkWorld (sidebarItems w) opened (draggingItem w) (accountData w)
               (entropy w) (randCalls w)).

(** Modelled from the spec: [randomStr] of [utils/common], which mints a
    freshly generated id. Its [n]-th call returns [entropy n], whatever
    the entropy source of the world is. *)
Definition randomStr : M string := λ w,
  (entropy w (randCalls w),
   mkWorld (sidebarItems w) (openedFolder w) (draggingItem w) (accountData w)
           (entropy w) (S (randCalls w))).

Definition setDraggingItem (d : option SidebarDraggable) : M unit := λ w,
  (tt, mkWorld (sidebarItems w) (openedFolder w) d (accountData w)
               (entropy w) (randCalls w)).

Definition localEchoSidebarItem (items : SidebarItems) : M unit := λ w,
  (tt, mkWorld items (openedFolder w) (draggingItem w) (accountData w)
               (entropy w) (randCalls w)).

(** [mx.setAccountData(AccountDataEvent.CinnySpaces, c)]: the write is
    recorded, newest first. *)
Definition setAccountData (c : SidebarItems) : M unit := λ w,
  (tt, mkWorld (sidebarItems w) (openedFolder w) (draggingItem w)
               (c :: accountData w) (entropy w) (randCalls w)).

(** ** The reconciler *)

Definition matchDest (sI : TSidebarItem) (dI : SidebarDraggable) : bool :=
  match sI, dI with
  | TSpace s, DSpace d => String.eqb s d
  | TFolder f, DFolder fd => String.eqb (id f) (id (folder fd))
  | _, _ => false
  end.

Definition itemAsFolderContent (i : SidebarDraggable) : list string :=
  match i with
  | DSpace s => [s]
  | DFolder fd =>
      match truthy (spaceId fd) with
      | Some sp => [sp]
      | None => content (folder fd)
      end
  end.

Definition sameFolders (item containerItem : SidebarDraggable) : bool :=
  match item, containerItem with
  | DFolder a, DFolder b => String.eqb (id (folder a)) (id (folder b))
  | _, _ => false
  end.

(** The inner [forEach] of the drop inside an opened folder: what is pushed
    to [newContent] for one space id of the filtered folder content. *)
Definition spliceAt (instructionType : InstructionType) (target : string)
    (child : list string) (sId : string) : list string :=
  if String.eqb sId target then
    (if decide (instructionType = ReorderBelow) then sId :: child else [])
    ++ (if decide (instructionType = ReorderAbove) then child ++ [sId] else [])
  else [sId].

(** [when b x]: the pushes of [if (b) newItems.push(x)]. *)
Definition when {A} (b : bool) (x : A) : list A := if b then [x] else [].

(** Removal phase: the drag item leaves its old position; a space dragged
    out of a folder leaves the rest of the folder behind, unless nothing
    is left. *)
Definition removeDragged (item : SidebarDraggable) : M (list TSidebarItem) :=
  match item with
  | DFolder fd =>
      match truthy (spaceId fd) with
      | Some sp =>
          let folderContent := filter (λ s, s ≠ sp) (content (folder fd)) in
          if Nat.eqb (length folderContent) 0 then
            setOpenedFolder (DELETE (id (folder fd)));;
            mret []
          else mret [TFolder (withContent (folder fd) folderContent)]
      | None => mret []
      end
  | DSpace _ => mret []
  end.

(** [make-child] on the container. *)
Definition makeChild (item containerItem : SidebarDraggable)
    : M (list TSidebarItem) :=
  let child := itemAsFolderContent item in
  match containerItem with
  | DSpace c =>
      fid ← randomStr;
      mret [TFolder {| id := fid; name := None; content := [c] ++ child |}]
  | DFolder cfd =>
      mret [TFolder (withContent (folder cfd) (content (folder cfd) ++ child))]
  end.

(** Drop inside an opened folder, or reordering inside the same folder:
    the container is the space [csp] of the folder [cf]. *)
Definition dropInside (item : SidebarDraggable) (cf : ISidebarFolder)
    (csp : string) (instructionType : InstructionType) : list TSidebarItem :=
  let child := itemAsFolderContent item in
  let newContent :=
    filter (λ sId, sId ∉ child) (content cf)
    ≫= spliceAt instructionType csp child in
  [TFolder (withContent cf newContent)].

(** Drop above or below a space or a closed/opened folder [i]. *)
Definition dropAround (item containerItem : SidebarDraggable)
    (instructionType : InstructionType) (i : TSidebarItem)
    : list TSidebarItem :=
  let above := bool_decide (instructionType = ReorderAbove) in
  let below := bool_decide (instructionType = ReorderBelow) in
  match item with
  | DSpace s => when below i ++ [TSpace s] ++ when above i
  | DFolder fd =>
      match truthy (spaceId fd) with
      | Some sp =>
          when above (TSpace sp)
          ++ match i with
             | TFolder fi =>
                 if sameFolders item containerItem then
                   let newI :=
                     withContent fi (filter (λ sId, sId ≠ sp) (content fi)) in
                   if Nat.ltb 0 (length (content newI)) then [TFolder newI]
                   else []
                 else [i]
             | TSpace _ => [i]
             end
          ++ when below (TSpace sp)
      | None => when below i ++ [TFolder (folder fd)] ++ when above i
      end
  end.

(** The body of [sidebarItems.forEach]: the items pushed to [newItems]
    while visiting [i], in order. *)
Definition visit (item containerItem : SidebarDraggable)
    (instructionType : InstructionType) (i : TSidebarItem)
    : M (list TSidebarItem) :=
  if negb (sameFolders item containerItem) && matchDest i item then
    removeDragged item
  else if matchDest i containerItem then
    if decide (instructionType = MakeChild) then makeChild item containerItem
    else
      match containerItem with
      | DFolder cfd =>
          match truthy (spaceId cfd) with
          | Some csp => mret (dropInside item (folder cfd) csp instructionType)
          | None => mret (dropAround item containerItem instructionType i)
          end
      | DSpace _ => mret (dropAround item containerItem instructionType i)
      end
  else mret [i].

(** [sidebarItems.forEach], [newItems] growing at its end. *)
Fixpoint forEach (body : TSidebarItem → M (list TSidebarItem))
    (items : SidebarItems) (newItems : SidebarItems) : M SidebarItems :=
  match items with
  | [] => mret newItems
  | i :: rest =>
      pushed ← body i;
      forEach body rest (newItems ++ pushed)
  end.

(** The reconciliation proper: [newItems] once the loop is over. *)
Definition reconcile (currentItems : SidebarItems)
    (item containerItem : SidebarDraggable)
    (instructionType : InstructionType) : M SidebarItems :=
  forEach (visit item containerItem instructionType) currentItems [].

Section Callback.
(** [makeCinnySpacesContent] and [parseSidebar] belong to
    [useSidebarItems]; the callback only composes them, so they are
    parameters here, the account-data content being identified with the
    sidebar sequence it carries. *)
Variable makeCinnySpacesContent : SidebarItems → SidebarItems.
Variable parseSidebar : SidebarItems → SidebarItems.

(** The callback handed to [useDnDMonitor]. *)
Definition onReorder (item containerItem : SidebarDraggable)
    (instructionType : InstructionType) : M unit := λ w,
  (newItems ← reconcile (sidebarItems w) item containerItem instructionType;
   let newSpacesContent := makeCinnySpacesContent newItems in
   localEchoSidebarItem (parseSidebar newSpacesContent);;
   setAccountData newSpacesContent) w.
End Callback.

(** ** Drop targets and the drop monitor *)

(** What [source.data.item] and a drop target's [item] are at run time: a
    string, compared by value, or a reference to a draggable object,
    compared by identity. *)
Inductive JsValue :=
  | JsString (s : string)
  | JsObject (address : nat).

#[global] Instance JsValue_eq_dec : EqDecision JsValue.
Proof. solve_decision. Defined.

(** [a !== b] *)
Definition strictNotEqual (a b : JsValue) : bool :=
  match a, b with
  | JsString x, JsString y => negb (String.eqb x y)
  | JsObject x, JsObject y => negb (Nat.eqb x y)
  | _, _ => true
  end.

(** [canDrop] of [useDropTarget] and of [useDropTargetInstruction]. *)
Definition canDrop (item : JsValue) (source_data_item : JsValue) : bool :=
  let dragItem := source_data_item in
  strictNotEqual dragItem item.

(** The objects the references stand for. *)
Definition Heap := gmap nat FolderDraggable.

Definition deref (h : Heap) (v : JsValue) : option SidebarDraggable :=
  match v with
  | JsString s => Some (DSpace s)
  | JsObject a => DFolder <$> h !! a
  end.

(** [data] of a drop target, as [getData] returns it. *)
Record DropTargetData := mkDropTargetData {
  item : SidebarDraggable;
  instructionType : option InstructionType;
}.

(** [onDrop] of the monitor set up by [useDnDMonitor]. *)
Definition onDrop (onDragging : option SidebarDraggable → M unit)
    (onReorder : SidebarDraggable → SidebarDraggable → InstructionType → M unit)
    (source_data_item : SidebarDraggable) (dropTargets : list DropTargetData)
    : M unit :=
  onDragging None;;
  match dropTargets with
  | [] => mret tt
  | target :: _ =>
      let containerItem := item target in
      match instructionType target with
      | None => mret tt
      | Some ty => onReorder source_data_item containerItem ty
      end
  end.

(** ** Scenario data *)

Definition F1 : ISidebarFolder :=
  {| id := "F1"; name := None; content := ["C"; "D"] |}.

Definition world0 (items : SidebarItems) : World :=
  {| sidebarItems := items; openedFolder := {[ "F1" ]}; draggingItem := None;
     accountData := []; entropy := λ n, String.append "fresh" (pretty n);
     randCalls := 0 |}.

(** ** The sidebar structure and its invariants *)

Definition spacesOf (i : TSidebarItem) : list string :=
  match i with
  | TSpace s => [s]
  | TFolder f => content f
  end.

(** Every space identifier of the structure, bare top-level entries and
    folder contents together, in display order. *)
Definition allSpaces (items : SidebarItems) : list string :=
  items ≫= spacesOf.

Definition foldersOf (items : SidebarItems) : list ISidebarFolder :=
  items ≫= λ i, match i with TFolder f => [f] | TSpace _ => [] end.

Definition folderIds (items : SidebarItems) : list string :=
  id <$> foldersOf items.

Definition occurrences (s : string) (items : SidebarItems) : nat :=
  length (filter (λ x, x = s) (allSpaces items)).

(** The invariants of the data model: a space sits in at most one place,
    no folder is empty, folder ids are unique. *)
Definition invariants (items : SidebarItems) : Prop :=
  NoDup (allSpaces items)
  ∧ Forall (λ f, content f ≠ []) (foldersOf items)
  ∧ NoDup (folderIds items).

(** A draggable is present when the entry it was built from is in the
    sidebar: the bare space, or the folder and, for a space of a folder,
    the space in the folder's content. *)
Definition present (items : SidebarItems) (d : SidebarDraggable) : Prop :=
  match d with
  | DSpace s => TSpace s ∈ items
  | DFolder fd =>
      TFolder (folder fd) ∈ items
      ∧ match truthy (spaceId fd) with
        | Some sp => sp ∈ content (folder fd)
        | None => True
        end
  end.

(** The three instruction kinds of the reconciler's contract. *)
Definition contractKind (ty : InstructionType) : Prop :=
  ty = ReorderAbove ∨ ty = ReorderBelow ∨ ty = MakeChild.

Definition reorderKind (ty : InstructionType) : Prop :=
  ty = ReorderAbove ∨ ty = ReorderBelow.

Definition wellFormed (items : SidebarItems)
    (item containerItem : SidebarDraggable) (ty : InstructionType) : Prop :=
  invariants items
  ∧ present items item
  ∧ present items containerItem
  ∧ item ≠ containerItem
  ∧ contractKind ty.

#[global] Instance invariants_dec items : Decision (invariants items).
Proof. unfold invariants. apply _. Defined.
#[global] Instance present_dec items d : Decision (present items d).
Proof.
  destruct d as [s|fd]; simpl; [apply _|].
  destruct (truthy (spaceId fd)); apply _.
Defined.
#[global] Instance contractKind_dec ty : Decision (contractKind ty).
Proof. unfold contractKind. apply _. Defined.
#[global] Instance reorderKind_dec ty : Decision (reorderKind ty).
Proof. unfold reorderKind. apply _. Defined.
#[global] Instance wellFormed_dec items d c ty : Decision (wellFormed items d c ty).
Proof. unfold wellFormed. apply _. Defined.

(** The space a folder-scoped draggable stands for, if any. *)
Definition draggedSpace (d : SidebarDraggable) : option string :=
  match d with
  | DSpace _ => None
  | DFolder fd => truthy (spaceId fd)
  end.

(** ** A pure view of the loop body

    What one visit pushes depends on the world only through the next
    string of the entropy source; what it does to the world is to clear
    one opened-folder entry or to draw one string. [pushes] and [after]
    say so; [visit_run] proves that they are what [visit] computes. *)

Definition nextId (w : World) : string := entropy w (randCalls w).

Definition remainder (item : SidebarDraggable) : list TSidebarItem :=
  match item with
  | DFolder fd =>
      match truthy (spaceId fd) with
      | Some sp =>
          let folderContent := filter (λ s, s ≠ sp) (content (folder fd)) in
          if Nat.eqb (length folderContent) 0 then []
          else [TFolder (withContent (folder fd) folderContent)]
      | None => []
      end
  | DSpace _ => []
  end.

Definition merged (fid : string) (item containerItem : SidebarDraggable)
    : list TSidebarItem :=
  let child := itemAsFolderContent item in
  match containerItem with
  | DSpace c => [TFolder {| id := fid; name := None; content := [c] ++ child |}]
  | DFolder cfd =>
      [TFolder (withContent (folder cfd) (content (folder cfd) ++ child))]
  end.

Definition pushes (fid : string) (item containerItem : SidebarDraggable)
    (ty : InstructionType) (i : TSidebarItem) : list TSidebarItem :=
  if negb (sameFolders item containerItem) && matchDest i item then
    remainder item
  else if matchDest i containerItem then
    if decide (ty = MakeChild) then merged fid item containerItem
    else
      match containerItem with
      | DFolder cfd =>
          match truthy (spaceId cfd) with
          | Some csp => dropInside item (folder cfd) csp ty
          | None => dropAround item containerItem ty i
          end
      | DSpace _ => dropAround item containerItem ty i
      end
  else [i].

(** The visit of [i] empties the folder of the dragged space. *)
Definition clears (item containerItem : SidebarDraggable) (i : TSidebarItem)
    : bool :=
  negb (sameFolders item containerItem) && matchDest i item
  && match item with
     | DFolder fd =>
         match truthy (spaceId fd) with
         | Some sp =>
             Nat.eqb (length (filter (λ s, s ≠ sp) (content (folder fd)))) 0
         | None => false
         end
     | DSpace _ => false
     end.

(** The visit of [i] calls [randomStr]. *)
Definition draws (item containerItem : SidebarDraggable)
    (ty : InstructionType) (i : TSidebarItem) : bool :=
  negb (negb (sameFolders item containerItem) && matchDest i item)
  && matchDest i containerItem
  && bool_decide (ty = MakeChild)
  && match containerItem with DSpace _ => true | DFolder _ => false end.

Definition draggedFolderId (item : SidebarDraggable) : string :=
  match item with
  | DFolder fd => id (folder fd)
  | DSpace _ => ""
  end.

Definition after (item containerItem : SidebarDraggable)
    (ty : InstructionType) (i : TSidebarItem) (w : World) : World :=
  mkWorld (sidebarItems w)
          (if clears item containerItem i
           then openedFolder w ∖ {[ draggedFolderId item ]}
           else openedFolder w)
          (draggingItem w) (accountData w) (entropy w)
          (if draws item containerItem ty i then S (randCalls w)
           else randCalls w).

(** ** Other handlers of [SpaceTabs] *)

(** [handleFolderToggle]; [data_id] is what
    [target.getAttribute('data-id')] returns. *)
Definition handleFolderToggle (data_id : option string) : M unit := λ w,
  match truthy data_id with
  | None => (tt, w)
  | Some targetFolderId =>
      setOpenedFolder
        (if bool_decide (targetFolderId ∈ openedFolder w)
         then DELETE targetFolderId else PUT targetFolderId) w
  end.

(** Moving the bare space [a] next to the bare space [b], entry by entry:
    [a] leaves its place and comes back immediately above or below [b]. *)
Definition reinsertBare (a b : string) (ty : InstructionType)
    (i : TSidebarItem) : list TSidebarItem :=
  if decide (i = TSpace a) then []
  else if decide (i = TSpace b) then
    if decide (ty = ReorderAbove) then [TSpace a; TSpace b]
    else [TSpace b; TSpace a]
  else [i].

(** The top-level entry a drag item becomes when it is dropped above or
    below another entry: the space itself, or the whole folder. *)
Definition movedEntry (d : SidebarDraggable) : TSidebarItem :=
  match d with
  | DSpace s => TSpace s
  | DFolder fd =>
      match truthy (spaceId fd) with
      | Some sp => TSpace sp
      | None => TFolder (folder fd)
      end
  end.

(** ** The tabs [SpaceTabs] renders *)

(** [spaceDraggable] of [SpaceTab]: the draggable of the tab of the room
    [roomId], inside the folder [fo] if any. *)
Definition spaceDraggable (fo : option ISidebarFolder) (roomId : string)
    : SidebarDraggable :=
  match fo with
  | Some f => DFolder {| folder := f; spaceId := Some roomId; open := None |}
  | None => DSpace roomId
  end.

(** The draggables of the tabs rendered for the sidebar, in display order;
    [getRoom sId] tells whether [mx.getRoom(sId)] finds the room (no tab is
    rendered otherwise), whose [roomId] is [sId]. *)
Definition tabDraggables (getRoom : string → bool) (items : SidebarItems)
    : list SidebarDraggable :=
  items ≫= λ i,
    match i with
    | TFolder f =>
        spaceDraggable (Some f) <$> filter (λ sId, getRoom sId = true) (content f)
    | TSpace s => if getRoom s then [spaceDraggable None s] else []
    end.

(** The sidebar entry a draggable was built from. *)
Definition origin (d : SidebarDraggable) : TSidebarItem :=
  match d with
  | DSpace s => TSpace s
  | DFolder fd => TFolder (folder fd)
  end.

(** The drops within one folder that move one of its spaces: a reorder of
    a space of the folder relative to the folder itself or to another of
    its spaces. *)
Definition sameFolderDropOk (item containerItem : SidebarDraggable)
    (ty : InstructionType) : Prop :=
  sameFolders item containerItem = true →
  ty ≠ MakeChild
  ∧ is_Some (draggedSpace item)
  ∧ draggedSpace item ≠ draggedSpace containerItem.

(** The drops onto a space of a folder that keep that space in place: a
    drag item of the same folder is another single space of it. *)
Definition spliceOk (item containerItem : SidebarDraggable) : Prop :=
  sameFolders item containerItem = true →
  is_Some (draggedSpace containerItem) →
  is_Some (draggedSpace item)
  ∧ draggedSpace item ≠ draggedSpace containerItem.

#[global] Instance sameFolderDropOk_dec d c ty : Decision (sameFolderDropOk d c ty).
Proof. unfold sameFolderDropOk. apply _. Defined.
#[global] Instance spliceOk_dec d c : Decision (spliceOk d c).
Proof. unfold spliceOk. apply _. Defined.

(** P2: every space identifier of the input appears exactly once in the
    output, and nothing else does. *)
Definition noDuplication (items out : SidebarItems) : Prop :=
  (∀ s, s ∈ allSpaces items → occurrences s out = 1)
  ∧ (∀ s, s ∈ allSpaces out → s ∈ allSpaces items).

(** P3: no folder of the output is empty. *)
Definition noEmptyFolder (out : SidebarItems) : Prop :=
  Forall (λ f, content f ≠ []) (foldersOf out).

(** P5: the same set of space identifiers. *)
Definition sameSpaces (items out : SidebarItems) : Prop :=
  ∀ s, s ∈ allSpaces out ↔ s ∈ allSpaces items.

(** The drag takes the last space out of its folder. *)
Definition emptiesOwnFolder (item : SidebarDraggable) : Prop :=
  match item with
  | DFolder fd =>
      match truthy (spaceId fd) with
      | Some sp => filter (λ s, s ≠ sp) (content (folder fd)) = []
      | None => False
      end
  | DSpace _ => False
  end.

#[global] Instance emptiesOwnFolder_dec d : Decision (emptiesOwnFolder d).
Proof.
  destruct d as [s|fd]; simpl; [apply _|].
  destruct (truthy (spaceId fd)); apply _.
Defined.

(** The effect of the whole loop on the world. *)
Definition clearsAny (item containerItem : SidebarDraggable)
    (items : SidebarItems) : bool :=
  existsb (clears item containerItem) items.

Definition drawCount (item containerItem : SidebarDraggable)
    (ty : InstructionType) (items : SidebarItems) : nat :=
  length (filter (λ i, draws item containerItem ty i = true) items).

(** [make-child] onto a bare space: the one case that makes a folder. *)
Definition mintsFolder (containerItem : SidebarDraggable)
    (ty : InstructionType) : bool :=
  bool_decide (ty = MakeChild)
  && match containerItem with DSpace _ => true | DFolder _ => false end.

(** Two runs of the loop on one input give the same [newItems]. *)
Definition runsAgree (items : SidebarItems) (item containerItem : SidebarDraggable)
    (ty : InstructionType) (w1 w2 : World) : Prop :=
  fst (reconcile items item containerItem ty w1)
  = fst (reconcile items item containerItem ty w2).

(** A run of the loop leaves the world as it found it. *)
Definition leavesWorld (items : SidebarItems) (item containerItem : SidebarDraggable)
    (ty : InstructionType) (w : World) : Prop :=
  snd (reconcile items item containerItem ty w) = w.

(** The drop left the sidebar, the account data, the opened folders and
    the entropy source alone. *)
Definition untouched (w w' : World) : Prop :=
  sidebarItems w' = sidebarItems w
  ∧ accountData w' = accountData w
  ∧ openedFolder w' = openedFolder w
  ∧ randCalls w' = randCalls w.

(** ** The drops the sidebar offers *)

(** The inputs the sidebar hands to the reconciler. [SpaceTab] is the only
    component that registers a draggable and a drop target on an element:
    [ClosedSpaceFolder] is rendered nowhere, and the two refs of
    [SpaceFolder] are attached to no element, so that its
    [useDropTargetInstruction] effects return before registering. Drag
    item and container are therefore the [spaceDraggable]s of two rendered
    tabs, distinct ones; the instruction is one of the three kinds, and
    [make-child] is on the block list of a tab inside a folder. The
    sidebar satisfies the invariants, and no room id is the empty
    string. *)
Definition tabDrop (getRoom : string → bool) (items : SidebarItems)
    (item containerItem : SidebarDraggable) (ty : InstructionType) : Prop :=
  invariants items
  ∧ ("" ∉ allSpaces items)
  ∧ item ∈ tabDraggables getRoom items
  ∧ containerItem ∈ tabDraggables getRoom items
  ∧ item ≠ containerItem
  ∧ contractKind ty
  ∧ (ty = MakeChild → draggedSpace containerItem = None).

#[global] Instance tabDrop_dec getRoom items d c ty :
  Decision (tabDrop getRoom items d c ty).
Proof. unfold tabDrop. apply _. Defined.

(** The room a tab stands for. *)
Definition tabSpace (d : SidebarDraggable) : string :=
  match d with
  | DSpace s => s
  | DFolder fd => default "" (spaceId fd)
  end.

(** The run-time value of the [spaceDraggable] of the [k]-th rendered tab,
    which the tab hands both to [useDraggableItem] and to [useDropTarget]:
    for a bare tab the room id, a string; for a tab inside a folder the
    object its [useMemo] made, which no other tab shares, here the object
    at address [k]. *)
Definition tabValue (k : nat) (d : SidebarDraggable) : JsValue :=
  match d with
  | DSpace s => JsString s
  | DFolder _ => JsObject k
  end.

(** The draggable objects of one render. *)
Definition tabHeap (tabs : list SidebarDraggable) : Heap :=
  omap (λ d, match d with DFolder fd => Some fd | DSpace _ => None end)
       (map_seq 0 tabs).

(** Modelled from the spec: the drag-and-drop library
    ([dropTargetForElements], [monitorForElements]), an external
    capability that is not part of the sources. When a drop completes it
    hands to [onDrop] the drop targets under the pointer, innermost first,
    leaving out those whose [canDrop] returned false for the drag source
    ("self-referential drop targets are filtered before this function via
    the canDrop predicate"); the data of a drop target is what its
    [getData] returned, the [item] of the tab and the instruction type
    computed at the pointer. The tabs are the only drop targets that are
    registered; [hits] lists those under the pointer by their rank in the
    render, each with that instruction type. *)
Definition dropTargetsAt (tabs : list SidebarDraggable) (source : JsValue)
    (hits : list (nat * option InstructionType)) : list DropTargetData :=
  hits ≫= λ hit,
    match tabs !! hit.1 with
    | Some c =>
        if canDrop (tabValue hit.1 c) source then
          match deref (tabHeap tabs) (tabValue hit.1 c) with
          | Some containerItem => [mkDropTargetData containerItem hit.2]
          | None => []
          end
        else []
    | None => []
    end.

Section Drop.
Variable makeCinnySpacesContent : SidebarItems → SidebarItems.
Variable parseSidebar : SidebarItems → SidebarItems.

(** A completed drag of the [k]-th rendered tab, within one render of the
    sidebar: [source.data.item] is the value the tab gave to
    [getInitialData], and the monitor runs [onDrop] with the callbacks of
    [SpaceTabs] on the drop targets the library collected. *)
Definition dropTab (getRoom : string → bool) (k : nat)
    (hits : list (nat * option InstructionType)) : M unit := λ w,
  let tabs := tabDraggables getRoom (sidebarItems w) in
  match tabs !! k with
  | Some d =>
      match deref (tabHeap tabs) (tabValue k d) with
      | Some source_data_item =>
          onDrop setDraggingItem (onReorder makeCinnySpacesContent parseSidebar)
            source_data_item (dropTargetsAt tabs (tabValue k d) hits) w
      | None => (tt, w)
      end
  | None => (tt, w)
  end.
End Drop.

(** * Properties *)

(** Decidable facts about concrete sidebars are settled by evaluation. *)
Ltac by_evaluation := apply (bool_decide_unpack _); vm_compute; reflexivity.

Section PureView.
Context (item containerItem : SidebarDraggable) (ty : InstructionType).

Lemma visit_run i w :
  visit item containerItem ty i w
  = (pushes (nextId w) item containerItem ty i,
     after item containerItem ty i w).
Proof.
  destruct w as [si op dr ad en rc].
  unfold visit, pushes, after, clears, draws, nextId.
  destruct (negb (sameFolders item containerItem) && matchDest i item) eqn:Hrem;
    simpl.
  - unfold removeDragged, remainder.
    destruct item as [s|fd]; [done|].
    destruct (truthy (spaceId fd)) as [sp|]; [|done].
    by destruct (length _ =? 0)%nat.
  - destruct (matchDest i containerItem); [|done].
    unfold makeChild, merged. rewrite bool_decide_decide.
    destruct (decide (ty = MakeChild)); simpl.
    + by destruct containerItem.
    + destruct containerItem as [c|cfd]; [done|].
      by destruct (truthy (spaceId cfd)).
Qed.

Lemma nextId_after_no_draw i w :
  draws item containerItem ty i = false →
  nextId (after item containerItem ty i w) = nextId w.
Proof. intros Hd. unfold nextId, after; simpl. by rewrite Hd. Qed.

Lemma pushes_id_irrelevant fid fid' i :
  draws item containerItem ty i = false →
  pushes fid item containerItem ty i = pushes fid' item containerItem ty i.
Proof.
  unfold draws, pushes.
  destruct (negb (sameFolders item containerItem) && matchDest i item);
    [done|]; simpl.
  destruct (matchDest i containerItem); [|done]; simpl.
  rewrite bool_decide_decide.
  destruct (decide (ty = MakeChild)); [|done]; simpl.
  by destruct containerItem.
Qed.

Lemma draws_bare_container i :
  draws item containerItem ty i = true →
  ∃ b, containerItem = DSpace b ∧ i = TSpace b.
Proof.
  unfold draws. intros H.
  repeat (apply andb_prop in H as [H ?]).
  destruct containerItem as [b|]; [|done].
  destruct i as [s|]; [|done]; simpl in *.
  exists b. split; [done|]. f_equal. by apply String.eqb_eq.
Qed.

Lemma forEach_visit_app items acc w :
  fst (forEach (visit item containerItem ty) items acc w)
  = acc ++ fst (forEach (visit item containerItem ty) items [] w).
Proof.
  revert acc w. induction items as [|i rest IH]; intros acc w; simpl.
  - by rewrite app_nil_r.
  - unfold mbind, M_bind. rewrite visit_run.
    rewrite (IH (acc ++ _)), (IH (pushes _ _ _ _ _)).
    by rewrite app_assoc.
Qed.

Lemma reconcile_cons i rest w :
  fst (reconcile (i :: rest) item containerItem ty w)
  = pushes (nextId w) item containerItem ty i
    ++ fst (reconcile rest item containerItem ty
              (after item containerItem ty i w)).
Proof.
  unfold reconcile; simpl. unfold mbind, M_bind. rewrite visit_run.
  by rewrite forEach_visit_app.
Qed.

Lemma forEach_visit_snd items acc acc' w :
  snd (forEach (visit item containerItem ty) items acc w)
  = snd (forEach (visit item containerItem ty) items acc' w).
Proof.
  revert acc acc' w.
  induction items as [|i rest IH]; intros acc acc' w; simpl; [done|].
  unfold mbind, M_bind. rewrite visit_run. apply IH.
Qed.

Lemma reconcile_snd_cons i rest w :
  snd (reconcile (i :: rest) item containerItem ty w)
  = snd (reconcile rest item containerItem ty
           (after item containerItem ty i w)).
Proof.
  unfold reconcile; simpl. unfold mbind, M_bind. rewrite visit_run.
  apply forEach_visit_snd.
Qed.

Lemma draws_same i j :
  draws item containerItem ty i = true →
  draws item containerItem ty j = true →
  j = i.
Proof.
  intros (b & Hc & ->)%draws_bare_container
         (b' & Hc' & ->)%draws_bare_container.
  congruence.
Qed.

Lemma bare_in_allSpaces b items : TSpace b ∈ items → b ∈ allSpaces items.
Proof.
  intros Hin. apply list_elem_of_bind. exists (TSpace b).
  split; [by left|done].
Qed.

(** With every space in at most one place the loop draws at most once,
    and the whole output is the pure view at the first id. *)
Lemma reconcile_pushes items w :
  NoDup (allSpaces items) →
  fst (reconcile items item containerItem ty w)
  = items ≫= pushes (nextId w) item containerItem ty.
Proof.
  revert w. induction items as [|i rest IH]; intros w Hnd; [done|].
  rewrite reconcile_cons, bind_cons. f_equal.
  assert (NoDup (allSpaces rest)) as Hrest.
  { unfold allSpaces in Hnd; simpl in Hnd.
    by apply NoDup_app in Hnd as (_ & _ & ?). }
  rewrite IH by done.
  destruct (draws item containerItem ty i) eqn:Hd.
  - assert (∀ j, j ∈ rest → draws item containerItem ty j = false) as Hno.
    { intros j Hj. apply not_true_is_false. intros Hj'.
      rewrite (draws_same _ _ Hd Hj') in Hj.
      apply draws_bare_container in Hd as (b & _ & ->).
      unfold allSpaces in Hnd; simpl in Hnd.
      apply NoDup_cons in Hnd as [Hb _]. by apply Hb, bare_in_allSpaces. }
    clear IH Hnd Hrest.
    induction rest as [|j rest IH]; [done|]. rewrite !bind_cons. f_equal.
    + apply pushes_id_irrelevant, Hno. left.
    + apply IH. intros k Hk. apply Hno. by right.
  - by rewrite nextId_after_no_draw.
Qed.
End PureView.

(** ** Drop targets and the drop monitor: properties *)

Lemma strictNotEqual_false a b : strictNotEqual a b = false ↔ a = b.
Proof.
  destruct a as [x|x], b as [y|y]; simpl; split; try done.
  - intros H%negb_false_iff%String.eqb_eq. by subst.
  - intros [= ->]. apply negb_false_iff, String.eqb_refl.
  - intros H%negb_false_iff%Nat.eqb_eq. by subst.
  - intros [= ->]. apply negb_false_iff, Nat.eqb_refl.
Qed.

(** [canDrop], the one predicate of both kinds of drop target, compares
    run-time values: it returns false exactly when the drag item is the
    same string, or the same draggable object, as the target's item. *)
Lemma canDrop_rejects_exactly_self (item dragItem : JsValue) :
  (canDrop item dragItem = false ↔ dragItem = item)
  ∧ (canDrop item dragItem = true ↔ dragItem ≠ item).
Proof.
  unfold canDrop. split; [apply strictNotEqual_false|].
  rewrite <-strictNotEqual_false. by destruct (strictNotEqual dragItem item).
Qed.

(** The comparison is one of identity: a second object with the same
    fields is another drop target. *)
Lemma canDrop_accepts_equal_copy (h : Heap) (a b : nat) (fd : FolderDraggable) :
  h !! a = Some fd → h !! b = Some fd → a ≠ b →
  deref h (JsObject a) = deref h (JsObject b)
  ∧ canDrop (JsObject a) (JsObject b) = true.
Proof.
  intros Ha Hb Hab. simpl. rewrite Ha, Hb. split; [done|].
  apply negb_true_iff, Nat.eqb_neq. congruence.
Qed.

(** C10: with no drop target, or with a topmost drop target that carries
    no instruction type, [onDrop] only signals the end of the drag: it
    never reaches the reorder callback, whatever that callback is, so with
    the callbacks of [SpaceTabs] the sidebar items, the opened folders and
    the account data stay as they were. *)
Theorem onDrop_without_instruction_does_not_reorder
    (onDragging : option SidebarDraggable → M unit)
    (onReorderCb : SidebarDraggable → SidebarDraggable → InstructionType → M unit)
    (mk ps : SidebarItems → SidebarItems)
    (source containerItem : SidebarDraggable) (rest : list DropTargetData)
    (w : World) :
  let silent := mkDropTargetData containerItem None :: rest in
  onDrop onDragging onReorderCb source [] w = (onDragging None;; mret tt) w
  ∧ onDrop onDragging onReorderCb source silent w = (onDragging None;; mret tt) w
  ∧ untouched w (snd (onDrop setDraggingItem (onReorder mk ps) source [] w))
  ∧ untouched w (snd (onDrop setDraggingItem (onReorder mk ps) source silent w)).
Proof. by repeat split. Qed.

(** A blocked instruction is an instruction type all the same: the monitor
    hands it to the reorder callback. *)
Lemma onDrop_blocked_instruction_reorders
    (onDragging : option SidebarDraggable → M unit)
    (onReorderCb : SidebarDraggable → SidebarDraggable → InstructionType → M unit)
    (source containerItem : SidebarDraggable) (rest : list DropTargetData)
    (w : World) :
  onDrop onDragging onReorderCb source
    (mkDropTargetData containerItem (Some InstructionBlocked) :: rest) w
  = (onDragging None;; onReorderCb source containerItem InstructionBlocked) w.
Proof. done. Qed.

(** ** Scenarios *)

(** C7: with top level [["A", "B", F1]] and [F1] holding [["C", "D"]],
    dragging ["C"] out of [F1] and dropping it above ["A"] gives
    [["C", "A", "B", F1]] where [F1] now holds [["D"]]. *)
Theorem scenario_drag_out_of_folder_above
    (nm : option string) (o : option bool) (w : World) :
  let F := {| id := "F1"; name := nm; content := ["C"; "D"] |} in
  fst (reconcile [TSpace "A"; TSpace "B"; TFolder F]
         (DFolder {| folder := F; spaceId := Some "C"; open := o |})
         (DSpace "A") ReorderAbove w)
  = [TSpace "C"; TSpace "A"; TSpace "B";
     TFolder {| id := "F1"; name := nm; content := ["D"] |}].
Proof.
  intros F. rewrite reconcile_pushes.
  - reflexivity.
  - by_evaluation.
Qed.

(** ** Lists without repetition *)

Section ListFacts.
Context {A : Type} `{EqDecision A}.
Implicit Types l k : list A.

Lemma filter_ne_restore l x :
  NoDup l → x ∈ l → filter (λ y, y ≠ x) l ++ [x] ≡ₚ l.
Proof.
  intros Hnd Hx. apply NoDup_Permutation; [|done|].
  - apply NoDup_app. split_and!; [by apply NoDup_filter| |apply NoDup_singleton].
    intros y [Hy _]%list_elem_of_filter ->%list_elem_of_singleton. done.
  - intros y. rewrite elem_of_app, list_elem_of_filter, list_elem_of_singleton.
    destruct (decide (y = x)) as [->|]; tauto.
Qed.


Lemma pick_one l x :
  NoDup l → x ∈ l → ∃ k, l ≡ₚ x :: k ∧ x ∉ k.
Proof.
  intros Hnd [k Hk]%elem_of_Permutation. exists k. split; [done|].
  rewrite Hk in Hnd. by apply NoDup_cons in Hnd as [? _].
Qed.

Lemma pick_two l x y :
  NoDup l → x ∈ l → y ∈ l → x ≠ y →
  ∃ k, l ≡ₚ x :: y :: k ∧ (x ∉ k) ∧ (y ∉ k).
Proof.
  intros Hnd Hx Hy Hxy.
  destruct (pick_one l x Hnd Hx) as (k & Hk & Hxk).
  rewrite Hk in Hnd, Hy. apply NoDup_cons in Hnd as [_ Hnd].
  apply elem_of_cons in Hy as [Hy|Hy]; [congruence|].
  destruct (pick_one k y Hnd Hy) as (k' & Hk' & Hyk').
  exists k'. split_and!; [by rewrite Hk, Hk'| |done].
  rewrite Hk' in Hxk. by apply not_elem_of_cons in Hxk as [_ ?].
Qed.

Lemma NoDup_fmap_inj_on {B} (f : A → B) l x y :
  NoDup (f <$> l) → x ∈ l → y ∈ l → f x = f y → x = y.
Proof.
  induction l as [|z l IH]; [by intros _ ?%elem_of_nil|].
  rewrite fmap_cons, NoDup_cons.
  intros [Hz Hnd] [->|Hx]%elem_of_cons [->|Hy]%elem_of_cons Hf; [done| | |by apply IH].
  - destruct Hz. rewrite Hf. by apply list_elem_of_fmap_2.
  - destruct Hz. rewrite <-Hf. by apply list_elem_of_fmap_2.
Qed.
End ListFacts.

(** ** The sidebar structure *)

Lemma allSpaces_cons i items : allSpaces (i :: items) = spacesOf i ++ allSpaces items.
Proof. done. Qed.

Lemma allSpaces_app l k : allSpaces (l ++ k) = allSpaces l ++ allSpaces k.
Proof. apply bind_app. Qed.

#[global] Instance allSpaces_Permutation : Proper ((≡ₚ) ==> (≡ₚ)) allSpaces.
Proof. unfold allSpaces. solve_proper. Qed.

Lemma spaces_in_allSpaces items i s :
  i ∈ items → s ∈ spacesOf i → s ∈ allSpaces items.
Proof. intros Hi Hs. apply list_elem_of_bind. eauto. Qed.

Lemma folder_in_foldersOf items f : TFolder f ∈ items ↔ f ∈ foldersOf items.
Proof.
  unfold foldersOf. rewrite list_elem_of_bind. split.
  - intros Hf. exists (TFolder f). split; [by left|done].
  - intros ([s|g] & Hg & Hin); [by apply elem_of_nil in Hg|].
    by apply list_elem_of_singleton in Hg as ->.
Qed.

Section Structure.
Context (items : SidebarItems).
Hypothesis spaces_once : NoDup (allSpaces items).

(** Two different entries share no space. *)
Lemma spaces_disjoint x y s :
  x ∈ items → y ∈ items → x ≠ y →
  s ∈ spacesOf x → s ∈ spacesOf y → False.
Proof using spaces_once.
  intros [k Hk]%elem_of_Permutation Hy Hxy Hsx Hsy.
  rewrite Hk in Hy, spaces_once.
  apply elem_of_cons in Hy as [Hy|Hy]; [congruence|].
  rewrite allSpaces_cons in spaces_once.
  apply NoDup_app in spaces_once as (_ & Hdisj & _).
  eapply Hdisj; [done|]. by eapply spaces_in_allSpaces.
Qed.

Lemma content_NoDup f : TFolder f ∈ items → NoDup (content f).
Proof using spaces_once.
  intros [k Hk]%elem_of_Permutation. rewrite Hk in spaces_once.
  rewrite allSpaces_cons in spaces_once.
  by apply NoDup_app in spaces_once as (? & _ & _).
Qed.

Lemma items_NoDup :
  Forall (λ f, content f ≠ []) (foldersOf items) → NoDup items.
Proof using spaces_once.
  clear -spaces_once. intros Hne.
  induction items as [|i rest IH]; [by apply NoDup_nil|].
  rewrite allSpaces_cons in spaces_once.
  apply NoDup_app in spaces_once as (Hi & Hdisj & Hrest).
  apply NoDup_cons. split.
  - intros Hin.
    assert (∃ s, s ∈ spacesOf i) as [s Hs].
    { destruct i as [s|f]; [exists s; by left|].
      apply Forall_inv in Hne. simpl in *.
      destruct (content f) as [|s ?]; [done|]. exists s. by left. }
    eapply Hdisj; [done|]. by eapply spaces_in_allSpaces.
  - apply IH; [done|].
    unfold foldersOf in Hne. rewrite bind_cons in Hne.
    by apply Forall_app in Hne as [_ ?].
Qed.

Hypothesis ids_unique : NoDup (folderIds items).

Lemma folder_id_inj f g :
  TFolder f ∈ items → TFolder g ∈ items → id f = id g → f = g.
Proof using ids_unique.
  rewrite !folder_in_foldersOf. by apply NoDup_fmap_inj_on.
Qed.

Lemma matchDest_origin d : matchDest (origin d) d = true.
Proof. destruct d; simpl; apply String.eqb_refl. Qed.

Lemma present_origin d : present items d → origin d ∈ items.
Proof. destruct d; simpl; tauto. Qed.

(** Only the entry a present draggable was built from matches it. *)
Lemma matchDest_unique d i :
  present items d → i ∈ items → matchDest i d = true → i = origin d.
Proof using ids_unique.
  destruct d as [s|fd], i as [s'|f]; simpl; try done.
  - by intros _ _ ->%String.eqb_eq.
  - intros [Hfd _] Hf Hid%String.eqb_eq. f_equal.
    by apply folder_id_inj.
Qed.

Lemma sameFolders_origin d c :
  present items d → present items c →
  sameFolders d c = true →
  ∃ fd cfd, d = DFolder fd ∧ c = DFolder cfd ∧ folder fd = folder cfd.
Proof using ids_unique.
  destruct d as [s|fd], c as [b|cfd]; simpl; try done.
  intros [Hd _] [Hc _] Hid%String.eqb_eq.
  exists fd, cfd. split_and!; [done..|]. by apply folder_id_inj.
Qed.

Lemma distinct_origins d c :
  d ≠ c → sameFolders d c = false → origin d ≠ origin c.
Proof.
  destruct d as [s|fd], c as [b|cfd]; simpl; try done.
  - intros Hne _ [= ->]. done.
  - intros _ Hid [= Heq]. rewrite Heq, String.eqb_refl in Hid. done.
Qed.
End Structure.

(** ** Where the spaces go *)

Lemma spliceAt_other ty t child s : s ≠ t → spliceAt ty t child s = [s].
Proof. intros Hne. unfold spliceAt. by destruct (String.eqb_spec s t). Qed.

Lemma spliceAt_target ty t child :
  reorderKind ty → spliceAt ty t child t ≡ₚ t :: child.
Proof.
  unfold spliceAt. rewrite String.eqb_refl.
  intros [-> | ->]; repeat case_decide; try done; simpl.
  - by rewrite Permutation_app_comm.
  - by rewrite app_nil_r.
Qed.

Lemma splice_absent ty t child (l : list string) :
  t ∉ l → l ≫= spliceAt ty t child = l.
Proof.
  induction l as [|s l IH]; [done|].
  intros [Hs Hl]%not_elem_of_cons.
  rewrite bind_cons, IH by done. by rewrite spliceAt_other.
Qed.

Lemma splice_perm ty t child (l : list string) :
  reorderKind ty → NoDup l → t ∈ l →
  l ≫= spliceAt ty t child ≡ₚ l ++ child.
Proof.
  intros Hty. induction 1 as [|s l Hs Hnd IH]; [by intros ?%elem_of_nil|].
  rewrite bind_cons. intros [<-|Ht]%elem_of_cons.
  - rewrite splice_absent by done. rewrite spliceAt_target by done.
    simpl. f_equiv. apply Permutation_app_comm.
  - rewrite spliceAt_other by (by intros ->). rewrite IH by done. done.
Qed.

Lemma allSpaces_remainder fd sp :
  truthy (spaceId fd) = Some sp →
  allSpaces (remainder (DFolder fd))
  = filter (λ s, s ≠ sp) (content (folder fd)).
Proof.
  intros Hsp. unfold remainder. rewrite Hsp. simpl.
  destruct (length _ =? 0)%nat eqn:E.
  - apply Nat.eqb_eq, length_zero_iff_nil in E. by rewrite E.
  - unfold allSpaces. by rewrite bind_singleton.
Qed.

Lemma filter_not_in_singleton (a : string) (l : list string) :
  filter (λ s, s ∉ [a]) l = filter (λ s, s ≠ a) l.
Proof. apply list_filter_iff. intros s. by rewrite list_elem_of_singleton. Qed.

Lemma filter_disjoint (child l : list string) :
  (∀ s, s ∈ l → s ∉ child) → filter (λ s, s ∉ child) l = l.
Proof.
  induction l as [|s l IH]; [done|]. intros H.
  rewrite filter_cons_True by (apply H; by left).
  f_equal. apply IH. intros s' Hs'. apply H. by right.
Qed.

Lemma around_spaces ty x y :
  reorderKind ty →
  allSpaces (when (bool_decide (ty = ReorderBelow)) y ++ [x]
             ++ when (bool_decide (ty = ReorderAbove)) y)
  ≡ₚ spacesOf y ++ spacesOf x.
Proof.
  intros [-> | ->]; simpl; rewrite ?allSpaces_cons; unfold allSpaces; simpl;
    rewrite ?app_nil_r; [apply Permutation_app_comm|done].
Qed.

Lemma around_spaces' ty x y :
  reorderKind ty →
  allSpaces (when (bool_decide (ty = ReorderAbove)) x ++ [y]
             ++ when (bool_decide (ty = ReorderBelow)) x)
  ≡ₚ spacesOf y ++ spacesOf x.
Proof.
  intros [-> | ->]; simpl; rewrite ?allSpaces_cons; unfold allSpaces; simpl;
    rewrite ?app_nil_r; [apply Permutation_app_comm|done].
Qed.

Lemma allSpaces_kept_folder f (l : list string) :
  allSpaces (if (0 <? length l)%nat then [TFolder (withContent f l)] else [])
  = l.
Proof.
  destruct l as [|s l]; [done|]. simpl. by rewrite app_nil_r.
Qed.

Lemma pushes_other fid d c ty i :
  matchDest i d = false → matchDest i c = false → pushes fid d c ty i = [i].
Proof. intros Hd Hc. unfold pushes. by rewrite Hd, Hc, andb_false_r. Qed.

Section Accounting.
Context (items : SidebarItems) (d c : SidebarDraggable) (ty : InstructionType).
Hypothesis spaces_once : NoDup (allSpaces items).
Hypothesis ids_unique : NoDup (folderIds items).
Hypothesis present_d : present items d.
Hypothesis present_c : present items c.

(** What the removal phase leaves behind, together with the dragged
    content, is what the origin of the drag item held. *)
Lemma removal_account :
  allSpaces (remainder d) ++ itemAsFolderContent d ≡ₚ spacesOf (origin d).
Proof using spaces_once present_d.
  destruct d as [s|fd]; [done|]. simpl in present_d.
  destruct present_d as [Hin Hsp].
  unfold itemAsFolderContent, origin, spacesOf.
  destruct (truthy (spaceId fd)) as [sp|] eqn:E.
  - rewrite (allSpaces_remainder _ sp) by done.
    apply filter_ne_restore; [|done]. by eapply content_NoDup.
  - unfold remainder. by rewrite E.
Qed.

(** The dragged content lies in the origin of the drag item. *)
Lemma child_in_origin s :
  s ∈ itemAsFolderContent d → s ∈ spacesOf (origin d).
Proof using present_d.
  destruct d as [a|fd]; [done|]. simpl in *.
  destruct present_d as [_ Hsp].
  destruct (truthy (spaceId fd)); [|done].
  by intros ->%list_elem_of_singleton.
Qed.

Lemma child_not_in_container s :
  origin d ≠ origin c →
  s ∈ spacesOf (origin c) → s ∉ itemAsFolderContent d.
Proof using spaces_once present_d present_c.
  intros Hne Hc Hd%child_in_origin.
  eapply (spaces_disjoint items spaces_once (origin d) (origin c));
    eauto using present_origin.
Qed.

Lemma origin_c_not_dragged :
  origin d ≠ origin c → matchDest (origin c) d = false.
Proof using ids_unique present_d present_c.
  intros Hne. apply not_true_is_false. intros Hm. apply Hne. symmetry.
  apply (matchDest_unique items); auto using present_origin.
Qed.

(** The insertion phase adds the dragged content to what the container
    entry held. *)
Lemma insertion_account fid :
  contractKind ty →
  origin d ≠ origin c →
  allSpaces (pushes fid d c ty (origin c))
  ≡ₚ spacesOf (origin c) ++ itemAsFolderContent d.
Proof using spaces_once ids_unique present_d present_c.
  intros Hty Hne. unfold pushes.
  rewrite origin_c_not_dragged, andb_false_r, matchDest_origin by done.
  destruct (decide (ty = MakeChild)) as [->|Hmk].
  { unfold merged, allSpaces. destruct c; by rewrite bind_singleton. }
  assert (reorderKind ty) as Hre
    by (destruct Hty as [?|[?|?]]; [by left|by right|done]).
  assert (allSpaces (dropAround d c ty (origin c))
          ≡ₚ spacesOf (origin c) ++ itemAsFolderContent d) as Haround.
  { unfold dropAround.
    assert (sameFolders d c = false) as Hsf.
    { apply not_true_is_false. intros Hsf. apply Hne.
      destruct (sameFolders_origin items ids_unique d c) as (?&?&->&->&?);
        simpl; [done..|]. by f_equal. }
    rewrite Hsf.
    destruct d as [s|fd]; [by apply around_spaces|]. simpl.
    destruct (truthy (spaceId fd)) as [sp|]; [|by apply around_spaces].
    destruct (origin c) eqn:Eo; rewrite <-Eo;
      by apply (around_spaces' _ (TSpace sp)). }
  pose proof (λ s, child_not_in_container s Hne) as Hdisj.
  pose proof present_c as Hc.
  destruct c as [b|cfd]; [done|].
  destruct (truthy (spaceId cfd)) as [csp|] eqn:Ecsp; [|done].
  unfold dropInside, allSpaces. rewrite bind_singleton. simpl.
  simpl in Hc. rewrite Ecsp in Hc. destruct Hc as [Hin Hcsp].
  rewrite filter_disjoint by done.
  apply splice_perm; [done| |done]. by eapply content_NoDup.
Qed.
(** A space of a folder moved within that folder: the folder keeps what
    it held. *)
Lemma same_folder_account fid :
  reorderKind ty →
  sameFolders d c = true →
  is_Some (draggedSpace d) →
  draggedSpace d ≠ draggedSpace c →
  allSpaces (pushes fid d c ty (origin c)) ≡ₚ spacesOf (origin c).
Proof using spaces_once ids_unique present_d present_c.
  intros Hre Hsf [a Ha] Hac.
  destruct (sameFolders_origin items ids_unique d c) as (fd & cfd & Hd & Hc & Hf);
    [done..|].
  pose proof present_d as Hpd. pose proof present_c as Hpc.
  unfold pushes. rewrite Hsf, matchDest_origin. simpl.
  rewrite Hd, Hc in *. clear Hd Hc. simpl in Ha, Hac, Hpd, Hpc.
  rewrite Ha in Hpd. destruct Hpd as [Hin Hain]. destruct Hpc as [_ Hcsp].
  assert (NoDup (content (folder cfd))) as Hnd.
  { rewrite <-Hf. by eapply content_NoDup. }
  rewrite Hf in Hain.
  rewrite decide_False by (destruct Hre as [-> | ->]; done).
  destruct (truthy (spaceId cfd)) as [csp|] eqn:Ecsp.
  - unfold dropInside, allSpaces. rewrite bind_singleton. simpl.
    rewrite Ha, filter_not_in_singleton.
    rewrite splice_perm; [by apply filter_ne_restore|done|by apply NoDup_filter|].
    apply list_elem_of_filter. split; [congruence|done].
  - unfold dropAround. rewrite Ha. simpl. simpl in Hsf. rewrite Hsf.
    set (rest := filter (λ sId, sId ≠ a) (content (folder cfd))).
    rewrite !allSpaces_app, allSpaces_kept_folder.
    etrans; [|by apply (filter_ne_restore (content (folder cfd)) a)].
    fold rest.
    destruct Hre as [-> | ->]; simpl; rewrite ?app_nil_r;
      [apply (Permutation_app_comm [a])|done].
Qed.

(** A whole folder dropped above or below itself is pushed twice. *)
Lemma same_folder_doubled fid :
  reorderKind ty →
  sameFolders d c = true →
  draggedSpace d = None →
  draggedSpace c = None →
  allSpaces (pushes fid d c ty (origin c))
  ≡ₚ spacesOf (origin c) ++ spacesOf (origin c).
Proof using ids_unique present_d present_c.
  intros Hre Hsf Hd0 Hc0.
  destruct (sameFolders_origin items ids_unique d c) as (fd & cfd & Hd & Hc & Hf);
    [done..|].
  unfold pushes. rewrite Hsf, matchDest_origin. simpl.
  rewrite Hd, Hc in *. simpl in Hd0, Hc0.
  rewrite decide_False by (destruct Hre as [-> | ->]; done).
  rewrite Hc0. unfold dropAround. rewrite Hd0, Hf.
  by apply (around_spaces ty (TFolder (folder cfd))).
Qed.

Lemma unmatched_d j : j ∈ items → j ≠ origin d → matchDest j d = false.
Proof using ids_unique present_d.
  intros Hj Hne. apply not_true_is_false. intros Hm.
  by apply Hne, (matchDest_unique items).
Qed.

Lemma unmatched_c j : j ∈ items → j ≠ origin c → matchDest j c = false.
Proof using ids_unique present_c.
  intros Hj Hne. apply not_true_is_false. intros Hm.
  by apply Hne, (matchDest_unique items).
Qed.

Lemma pushes_rest fid (k : SidebarItems) :
  (∀ j, j ∈ k → j ∈ items ∧ j ≠ origin d ∧ j ≠ origin c) →
  k ≫= pushes fid d c ty = k.
Proof using ids_unique present_d present_c.
  induction k as [|j k IH]; [done|]. intros Hk.
  rewrite bind_cons, IH by (intros ??; apply Hk; by right).
  destruct (Hk j) as (? & ? & ?); [by left|].
  by rewrite pushes_other by auto using unmatched_d, unmatched_c.
Qed.
End Accounting.

(** The loop seen from the entries it changes: the one entry of a drop
    within a folder, or the origins of the drag item and of the
    container. *)
Lemma pushes_same_folder items d c ty fid :
  invariants items → present items d → present items c →
  sameFolders d c = true →
  ∃ k, items ≡ₚ origin c :: k
       ∧ items ≫= pushes fid d c ty ≡ₚ pushes fid d c ty (origin c) ++ k.
Proof.
  intros (Hnd & Hne & Hids) Hpd Hpc Hsf.
  pose proof (items_NoDup items Hnd Hne) as Hitems.
  pose proof (present_origin items c Hpc) as Hoc.
  assert (origin d = origin c) as Heq.
  { destruct (sameFolders_origin items Hids d c) as (?&?&->&->&?); [done..|].
    simpl. by f_equal. }
  destruct (pick_one items (origin c) Hitems Hoc) as (k & Hk & Hck).
  exists k. split; [done|].
  assert (k ≫= pushes fid d c ty = k) as Hrest.
  { apply (pushes_rest items); [done..|]. intros j Hj. split_and!.
    - rewrite Hk. by right.
    - rewrite Heq. by intros ->.
    - by intros ->. }
  rewrite Hk at 1. by rewrite bind_cons, Hrest.
Qed.

Lemma pushes_distinct items d c ty fid :
  invariants items → present items d → present items c →
  d ≠ c → sameFolders d c = false →
  ∃ k, items ≡ₚ origin d :: origin c :: k
       ∧ items ≫= pushes fid d c ty
         ≡ₚ remainder d ++ pushes fid d c ty (origin c) ++ k.
Proof.
  intros (Hnd & Hne & Hids) Hpd Hpc Hdc Hsf.
  pose proof (items_NoDup items Hnd Hne) as Hitems.
  pose proof (present_origin items d Hpd) as Hod.
  pose proof (present_origin items c Hpc) as Hoc.
  pose proof (distinct_origins d c Hdc Hsf) as Hxy.
  destruct (pick_two items (origin d) (origin c) Hitems Hod Hoc Hxy)
    as (k & Hk & Hdk & Hck).
  exists k. split; [done|].
  assert (k ≫= pushes fid d c ty = k) as Hrest.
  { apply (pushes_rest items); [done..|]. intros j Hj. split_and!.
    - rewrite Hk. by do 2 right.
    - by intros ->.
    - by intros ->. }
  rewrite Hk at 1. rewrite !bind_cons, Hrest.
  assert (pushes fid d c ty (origin d) = remainder d) as ->; [|done].
  unfold pushes. by rewrite Hsf, matchDest_origin.
Qed.

Lemma contract_reorder ty : contractKind ty → ty ≠ MakeChild → reorderKind ty.
Proof. intros [?|[?|?]] ?; [by left|by right|done]. Qed.

(** The spaces of the output are those of the input, rearranged. *)
Lemma reconcile_spaces_perm items d c ty w :
  wellFormed items d c ty →
  sameFolderDropOk d c ty →
  allSpaces (fst (reconcile items d c ty w)) ≡ₚ allSpaces items.
Proof.
  intros (Hinv & Hpd & Hpc & Hdc & Hty) Hok.
  pose proof Hinv as (Hnd & Hne & Hids).
  rewrite reconcile_pushes by done.
  destruct (sameFolders d c) eqn:Hsf.
  - destruct Hok as (Hmk & Hsome & Hdiff); [done|].
    destruct (pushes_same_folder items d c ty (nextId w)) as (k & Hk & ->);
      [done..|].
    rewrite allSpaces_app, (same_folder_account items), Hk;
      auto using contract_reorder.
  - destruct (pushes_distinct items d c ty (nextId w)) as (k & Hk & ->);
      [done..|].
    rewrite !allSpaces_app, (insertion_account items), Hk, !allSpaces_cons;
      auto using distinct_origins.
    rewrite <-(removal_account items d Hnd Hpd).
    rewrite <-!app_assoc. f_equiv.
    rewrite !app_assoc. f_equiv. apply Permutation_app_comm.
Qed.

(** A whole folder dropped above or below itself: its spaces come twice. *)
Lemma reconcile_spaces_doubled items d c ty w :
  invariants items → present items d → present items c →
  reorderKind ty →
  sameFolders d c = true →
  draggedSpace d = None → draggedSpace c = None →
  allSpaces (fst (reconcile items d c ty w))
  ≡ₚ spacesOf (origin c) ++ allSpaces items.
Proof.
  intros Hinv Hpd Hpc Hre Hsf Hd0 Hc0.
  pose proof Hinv as (Hnd & Hne & Hids).
  rewrite reconcile_pushes by done.
  destruct (pushes_same_folder items d c ty (nextId w)) as (k & Hk & ->);
    [done..|].
  rewrite allSpaces_app, (same_folder_doubled items), Hk, allSpaces_cons by done.
  by rewrite <-app_assoc.
Qed.

(** ** No duplication, no loss *)


(** The loop itself does not guard the drops within one folder. With a
    draggable for the folder as a whole, which only [ClosedSpaceFolder]
    and [SpaceFolder] build and no rendered element carries: a space of
    [F1] dropped onto [F1] itself with [make-child] is appended to the
    content it is still part of. *)
Lemma make_child_into_own_folder_duplicates :
  let items := [TSpace "A"; TSpace "B"; TFolder F1] in
  let d := DFolder {| folder := F1; spaceId := Some "C"; open := None |} in
  let c := DFolder {| folder := F1; spaceId := None; open := None |} in
  wellFormed items d c MakeChild
  ∧ fst (reconcile items d c MakeChild (world0 items))
    = [TSpace "A"; TSpace "B";
       TFolder {| id := "F1"; name := None; content := ["C"; "D"; "C"] |}]
  ∧ ¬ noDuplication items (fst (reconcile items d c MakeChild (world0 items))).
Proof.
  intros items d c. split; [|split].
  - by_evaluation.
  - vm_compute. reflexivity.
  - intros [Hocc _]. specialize (Hocc "C").
    assert ("C" ∈ allSpaces items) as Hin
      by by_evaluation.
    apply Hocc in Hin. vm_compute in Hin. discriminate.
Qed.

(** Whatever component the draggables come from: with [reorder-above] or
    [reorder-below], when a drop onto a space of the drag item's own
    folder drags another single space of that folder, the set of space
    identifiers of the output equals that of the input. *)
Lemma reorder_preserves_space_set items d c ty w :
  wellFormed items d c ty →
  reorderKind ty →
  spliceOk d c →
  sameSpaces items (fst (reconcile items d c ty w)).
Proof.
  intros Hwf Hre Hsp s.
  destruct (decide (sameFolderDropOk d c ty)) as [Hok|Hno].
  { by rewrite (reconcile_spaces_perm items d c ty w Hwf Hok). }
  destruct Hwf as (Hinv & Hpd & Hpc & Hdc & Hty).
  destruct (sameFolders d c) eqn:Hsf; [|destruct Hno; intros ?; congruence].
  assert (ty ≠ MakeChild) as Hmk by (destruct Hre as [-> | ->]; done).
  assert (draggedSpace c = None) as Hc0.
  { destruct (draggedSpace c) as [csp|] eqn:Ec; [|done].
    destruct Hno. intros _. split; [done|].
    apply Hsp; [done|]. rewrite Ec. by eexists. }
  assert (draggedSpace d = None) as Hd0.
  { destruct (draggedSpace d) as [a|] eqn:Ed; [|done].
    destruct Hno. intros _. rewrite Ed, Hc0.
    split_and!; [done|by eexists|done]. }
  rewrite (reconcile_spaces_doubled items d c ty w) by done.
  rewrite elem_of_app. split; [|by right].
  intros [Hs|Hs]; [|done].
  eapply spaces_in_allSpaces; [|done]. by apply present_origin.
Qed.

(** With a draggable for the folder as a whole, which no rendered element
    carries: a whole folder dropped above one of its own spaces comes out
    with no content, and its spaces are gone. *)
Lemma folder_onto_own_space_loses_spaces :
  let items := [TSpace "A"; TSpace "B"; TFolder F1] in
  let d := DFolder {| folder := F1; spaceId := None; open := None |} in
  let c := DFolder {| folder := F1; spaceId := Some "C"; open := None |} in
  wellFormed items d c ReorderAbove
  ∧ reorderKind ReorderAbove
  ∧ fst (reconcile items d c ReorderAbove (world0 items))
    = [TSpace "A"; TSpace "B";
       TFolder {| id := "F1"; name := None; content := [] |}]
  ∧ ¬ sameSpaces items (fst (reconcile items d c ReorderAbove (world0 items))).
Proof.
  intros items d c. split_and!.
  - by_evaluation.
  - by left.
  - vm_compute. reflexivity.
  - intros Hsame. specialize (Hsame "C").
    assert ("C" ∈ allSpaces items) as Hin
      by by_evaluation.
    apply Hsame in Hin.
    assert ("C" ∉ allSpaces (fst (reconcile items d c ReorderAbove (world0 items))))
      as Hout by by_evaluation.
    done.
Qed.

(** ** No empty folder *)

Lemma noEmptyFolder_app l k :
  noEmptyFolder (l ++ k) ↔ noEmptyFolder l ∧ noEmptyFolder k.
Proof. unfold noEmptyFolder, foldersOf. by rewrite bind_app, Forall_app. Qed.

Lemma noEmptyFolder_nil : noEmptyFolder [].
Proof. by apply Forall_nil. Qed.

Lemma noEmptyFolder_space s : noEmptyFolder [TSpace s].
Proof. by apply Forall_nil. Qed.

Lemma noEmptyFolder_folder f : noEmptyFolder [TFolder f] ↔ content f ≠ [].
Proof.
  unfold noEmptyFolder, foldersOf. rewrite bind_singleton.
  by rewrite Forall_singleton.
Qed.

Lemma noEmptyFolder_when (b : bool) i : noEmptyFolder [i] → noEmptyFolder (when b i).
Proof. destruct b; [done|]. intros _. apply noEmptyFolder_nil. Qed.

Lemma noEmptyFolder_bind {A} (f : A → SidebarItems) (l : list A) :
  (∀ x, x ∈ l → noEmptyFolder (f x)) → noEmptyFolder (l ≫= f).
Proof.
  induction l as [|x l IH]; intros H; [apply noEmptyFolder_nil|].
  rewrite bind_cons. apply noEmptyFolder_app. split.
  - apply H. by left.
  - apply IH. intros y Hy. apply H. by right.
Qed.

Lemma noEmptyFolder_elem items i :
  noEmptyFolder items → i ∈ items → noEmptyFolder [i].
Proof.
  intros Hne Hi. destruct i as [s|f]; [apply noEmptyFolder_space|].
  apply noEmptyFolder_folder.
  unfold noEmptyFolder in Hne. rewrite Forall_forall in Hne.
  by apply Hne, folder_in_foldersOf.
Qed.

Lemma splice_nonempty ty t child (l : list string) :
  reorderKind ty → t ∈ l → l ≫= spliceAt ty t child ≠ [].
Proof.
  intros Hty. induction l as [|s l IH]; [by intros ?%elem_of_nil|].
  rewrite bind_cons. intros Ht Hnil.
  apply app_eq_nil in Hnil as [Hs Hl].
  unfold spliceAt in Hs. destruct (String.eqb_spec s t) as [->|Hne]; [|done].
  destruct Hty as [-> | ->]; repeat case_decide; try done; simpl in Hs.
  by apply app_eq_nil in Hs as [_ ?].
Qed.

Lemma remainder_nonempty d : noEmptyFolder (remainder d).
Proof.
  destruct d as [s|fd]; simpl; [apply noEmptyFolder_nil|].
  destruct (truthy (spaceId fd)) as [sp|]; [|apply noEmptyFolder_nil].
  destruct (length _ =? 0)%nat eqn:E; [apply noEmptyFolder_nil|].
  apply noEmptyFolder_folder. simpl.
  apply Nat.eqb_neq in E. intros Hnil. by rewrite Hnil in E.
Qed.

Section NoEmptyFolder.
Context (d c : SidebarDraggable) (ty : InstructionType).
Hypothesis kind : contractKind ty.
(** The folders the draggables carry are not empty. *)
Hypothesis d_nonempty : noEmptyFolder [origin d].
Hypothesis c_nonempty : noEmptyFolder [origin c].
(** The container space is in the container folder and is not dragged. *)
Hypothesis c_space_stays : ∀ cfd csp,
  c = DFolder cfd → truthy (spaceId cfd) = Some csp →
  csp ∈ content (folder cfd) ∧ csp ∉ itemAsFolderContent d.

Lemma merged_nonempty fid : noEmptyFolder (merged fid d c).
Proof using c_nonempty.
  clear c_space_stays. unfold merged. destruct c as [b|cfd]; apply noEmptyFolder_folder; simpl.
  - done.
  - apply noEmptyFolder_folder in c_nonempty.
    by intros [? _]%app_eq_nil.
Qed.

Lemma dropAround_nonempty c' i :
  noEmptyFolder [i] → noEmptyFolder (dropAround d c' ty i).
Proof using d_nonempty.
  clear c_space_stays. intros Hi. unfold dropAround. destruct d as [s|fd].
  - rewrite !noEmptyFolder_app. split_and!;
      auto using noEmptyFolder_when, noEmptyFolder_space.
  - destruct (truthy (spaceId fd)) as [sp|].
    + rewrite !noEmptyFolder_app. split_and!;
        auto using noEmptyFolder_when, noEmptyFolder_space.
      destruct i as [s|fi]; [done|].
      destruct (sameFolders _ _); [|done].
      destruct (0 <? _)%nat eqn:E; [|apply noEmptyFolder_nil].
      apply noEmptyFolder_folder. apply Nat.ltb_lt in E.
      intros Hnil. rewrite Hnil in E. simpl in E. lia.
    + rewrite !noEmptyFolder_app. split_and!; auto using noEmptyFolder_when.
Qed.

Lemma pushes_nonempty fid i :
  noEmptyFolder [i] → noEmptyFolder (pushes fid d c ty i).
Proof using kind d_nonempty c_nonempty c_space_stays.
  intros Hi. unfold pushes.
  destruct (negb (sameFolders d c) && matchDest i d);
    [apply remainder_nonempty|].
  destruct (matchDest i c); [|done].
  destruct (decide (ty = MakeChild)) as [Hmk|Hmk]; [apply merged_nonempty|].
  pose proof (contract_reorder ty kind Hmk) as Hre.
  pose proof c_space_stays as Hstay.
  destruct c as [b|cfd]; [by apply dropAround_nonempty|].
  destruct (truthy (spaceId cfd)) as [csp|] eqn:Ecsp;
    [|by apply dropAround_nonempty].
  destruct (Hstay cfd csp) as [Hin Hout]; [done..|].
  unfold dropInside. apply noEmptyFolder_folder. simpl.
  apply splice_nonempty; [done|]. by apply list_elem_of_filter.
Qed.
End NoEmptyFolder.

Lemma container_space_stays items d c ty cfd csp :
  wellFormed items d c ty → spliceOk d c →
  c = DFolder cfd → truthy (spaceId cfd) = Some csp →
  csp ∈ content (folder cfd) ∧ csp ∉ itemAsFolderContent d.
Proof.
  intros ((Hnd & Hne & Hids) & Hpd & Hpc & Hdc & Hty) Hok -> Hcsp.
  pose proof Hpc as [Hcin Hc]. rewrite Hcsp in Hc. split; [done|].
  destruct (sameFolders d (DFolder cfd)) eqn:Hsf.
  - destruct Hok as [[a Ha] Hdiff]; [done|simpl; rewrite Hcsp; by eexists|].
    simpl in Hdiff. rewrite Hcsp in Hdiff.
    destruct d as [s|fd]; [done|]. simpl in *. rewrite Ha in *.
    intros ->%list_elem_of_singleton. done.
  - apply (child_not_in_container items d (DFolder cfd)); try done.
    by apply distinct_origins.
Qed.

(** ** What the loop does to the world *)

Lemma reconcile_world items d c ty w :
  snd (reconcile items d c ty w)
  = mkWorld (sidebarItems w)
            (if clearsAny d c items
             then openedFolder w ∖ {[ draggedFolderId d ]}
             else openedFolder w)
            (draggingItem w) (accountData w) (entropy w)
            (randCalls w + drawCount d c ty items).
Proof.
  revert w. induction items as [|i rest IH]; intros w.
  - destruct w. unfold drawCount. simpl. f_equal. lia.
  - rewrite reconcile_snd_cons, IH. unfold clearsAny, drawCount.
    rewrite filter_cons. unfold after. simpl. f_equal.
    + destruct (clears d c i); simpl; [|done].
      destruct (existsb (clears d c) rest); [|done].
      apply set_eq. intros x. rewrite !elem_of_difference. tauto.
    + destruct (draws d c ty i); simpl; lia.
Qed.

Lemma clearsAny_origin items d c :
  present items d → sameFolders d c = false → emptiesOwnFolder d →
  clearsAny d c items = true.
Proof.
  intros Hpd Hsf Hemp. apply existsb_exists. exists (origin d). split.
  - by apply list_elem_of_In, present_origin.
  - unfold clears. rewrite Hsf, matchDest_origin. simpl.
    destruct d as [s|fd]; [done|]. simpl in Hemp.
    destruct (truthy (spaceId fd)); [|done]. by rewrite Hemp.
Qed.


(** With a draggable for the folder as a whole, which no rendered element
    carries: a whole folder dropped below one of its own spaces comes out
    with the content [[]]. *)
Lemma folder_onto_own_space_leaves_empty_folder :
  let items := [TFolder F1; TSpace "A"] in
  let d := DFolder {| folder := F1; spaceId := None; open := None |} in
  let c := DFolder {| folder := F1; spaceId := Some "D"; open := None |} in
  wellFormed items d c ReorderBelow
  ∧ fst (reconcile items d c ReorderBelow (world0 items))
    = [TFolder {| id := "F1"; name := None; content := [] |}; TSpace "A"]
  ∧ ¬ noEmptyFolder (fst (reconcile items d c ReorderBelow (world0 items))).
Proof.
  intros items d c. split_and!.
  - by_evaluation.
  - vm_compute. reflexivity.
  - intros Hne. apply Forall_inv in Hne. by apply Hne.
Qed.

(** The last space of an opened folder dropped above the folder itself:
    the folder is left out of the output, and its opened state stays. *)
Lemma pull_out_above_own_folder_keeps_opened_state :
  let G := {| id := "F1"; name := None; content := ["C"] |} in
  let items := [TSpace "A"; TFolder G] in
  let d := DFolder {| folder := G; spaceId := Some "C"; open := None |} in
  let c := DFolder {| folder := G; spaceId := None; open := Some true |} in
  let w := world0 items in
  wellFormed items d c ReorderAbove
  ∧ fst (reconcile items d c ReorderAbove w) = [TSpace "A"; TSpace "C"]
  ∧ "F1" ∈ openedFolder (snd (reconcile items d c ReorderAbove w)).
Proof.
  intros G items d c w. split_and!.
  - by_evaluation.
  - vm_compute. reflexivity.
  - rewrite reconcile_world.
    replace (clearsAny d c items) with false by reflexivity.
    simpl. set_solver.
Qed.

(** ** Unmatched items *)

(** C8: the items of [currentItems] that match neither the drag item nor
    the container item are pushed as they are, so they form a subsequence
    of the output: each appears unchanged, in the order of the input. *)
Theorem unmatched_items_pass_through items d c ty w :
  filter (λ i, matchDest i d = false ∧ matchDest i c = false) items
  `sublist_of` fst (reconcile items d c ty w).
Proof.
  revert w. induction items as [|i rest IH]; intros w; [done|].
  rewrite reconcile_cons, filter_cons. case_decide as Hi.
  - destruct Hi as [Hd Hc]. rewrite pushes_other by done.
    apply sublist_skip, IH.
  - apply sublist_inserts_l, IH.
Qed.

(** ** Folder ids *)

Lemma folderIds_in items fid :
  fid ∈ folderIds items ↔ ∃ f, TFolder f ∈ items ∧ fid = id f.
Proof.
  unfold folderIds. rewrite list_elem_of_fmap.
  split; intros (f & ? & ?); exists f; by rewrite ?folder_in_foldersOf in *.
Qed.

Lemma elem_of_when {A} (b : bool) (x y : A) : y ∈ when b x → y = x.
Proof. destruct b; [by intros ?%list_elem_of_singleton|by intros ?%elem_of_nil]. Qed.

Section FolderIds.
Context (items : SidebarItems) (d c : SidebarDraggable) (ty : InstructionType).
Hypothesis present_d : present items d.
Hypothesis present_c : present items c.

Lemma dragged_folder_known fd : d = DFolder fd → id (folder fd) ∈ folderIds items.
Proof using present_d.
  intros Hd. apply folderIds_in. exists (folder fd). split; [|done].
  rewrite Hd in present_d. by destruct present_d.
Qed.

Lemma container_folder_known cfd : c = DFolder cfd → id (folder cfd) ∈ folderIds items.
Proof using present_c.
  intros Hc. apply folderIds_in. exists (folder cfd). split; [|done].
  rewrite Hc in present_c. by destruct present_c.
Qed.

Lemma remainder_folder g : TFolder g ∈ remainder d → id g ∈ folderIds items.
Proof using present_d.
  pose proof dragged_folder_known as Hk.
  destruct d as [s|fd]; simpl; [by intros ?%elem_of_nil|].
  destruct (truthy (spaceId fd)); [|by intros ?%elem_of_nil].
  destruct (length _ =? 0)%nat; [by intros ?%elem_of_nil|].
  intros [= ->]%list_elem_of_singleton. by apply Hk.
Qed.

Lemma dropAround_folder c' i g :
  i ∈ items →
  TFolder g ∈ dropAround d c' ty i → id g ∈ folderIds items.
Proof using present_d.
  intros Hi. pose proof dragged_folder_known as Hk.
  assert (TFolder g = i → id g ∈ folderIds items) as Hgi.
  { intros <-. apply folderIds_in. by exists g. }
  unfold dropAround. destruct d as [s|fd].
  - rewrite !elem_of_app. intros [?%elem_of_when|[Hs|?%elem_of_when]]; auto.
    by apply list_elem_of_singleton in Hs.
  - destruct (truthy (spaceId fd)) as [sp|].
    + rewrite !elem_of_app. intros [?%elem_of_when|[Hm|?%elem_of_when]];
        [done| |done].
      destruct i as [s|fi]; [by apply list_elem_of_singleton in Hm; auto|].
      destruct (sameFolders _ _);
        [|by apply list_elem_of_singleton in Hm; auto].
      destruct (0 <? _)%nat; [|by apply elem_of_nil in Hm].
      apply list_elem_of_singleton in Hm as [= ->]. simpl.
      apply folderIds_in. by exists fi.
    + rewrite !elem_of_app. intros [?%elem_of_when|[Hs|?%elem_of_when]]; auto.
      apply list_elem_of_singleton in Hs as [= ->]. by apply Hk.
Qed.

(** A folder pushed while visiting an item of the sidebar has the id of
    a folder of the sidebar, or is the one [make-child] makes. *)
Lemma pushes_folder fid0 i g :
  i ∈ items →
  TFolder g ∈ pushes fid0 d c ty i →
  id g ∈ folderIds items ∨ (mintsFolder c ty = true ∧ id g = fid0).
Proof using present_d present_c.
  intros Hi. unfold pushes, mintsFolder.
  destruct (negb (sameFolders d c) && matchDest i d).
  { left. by apply remainder_folder. }
  destruct (matchDest i c).
  2:{ intros <-%list_elem_of_singleton. left. apply folderIds_in. by exists g. }
  pose proof container_folder_known as Hk.
  destruct (decide (ty = MakeChild)) as [->|Hmk].
  { unfold merged. destruct c as [b|cfd];
      intros [= ->]%list_elem_of_singleton; simpl; [by right|].
    left. by apply Hk. }
  destruct c as [b|cfd]; [left; by eapply dropAround_folder|].
  destruct (truthy (spaceId cfd)); [|left; by eapply dropAround_folder].
  unfold dropInside. intros [= ->]%list_elem_of_singleton. left. by apply Hk.
Qed.
End FolderIds.

Lemma length_le_one {A} (l : list A) (a : A) :
  NoDup l → (∀ x, x ∈ l → x = a) → (length l ≤ 1)%nat.
Proof.
  destruct l as [|x [|y l]]; simpl; [lia..|].
  intros Hnd Hall. apply NoDup_cons in Hnd as [Hx _]. destruct Hx.
  rewrite (Hall x), (Hall y); [by left|by right; left|by left].
Qed.

(** The loop draws once for [make-child] onto a bare space, and never
    otherwise. *)
Lemma drawCount_wellFormed items d c ty :
  wellFormed items d c ty →
  drawCount d c ty items = if mintsFolder c ty then 1 else 0.
Proof.
  intros ((Hnd & Hne & Hids) & Hpd & Hpc & Hdc & Hty).
  unfold drawCount, mintsFolder.
  destruct (bool_decide (ty = MakeChild)
            && match c with DSpace _ => true | DFolder _ => false end) eqn:Hm.
  - apply andb_prop in Hm as [Hmk%bool_decide_eq_true Hc].
    destruct c as [b|]; [|done]. subst ty.
    assert (draws d (DSpace b) MakeChild (TSpace b) = true) as Hb.
    { unfold draws. simpl. rewrite String.eqb_refl.
      destruct d as [a|fd]; simpl; [|done].
      destruct (String.eqb_spec b a) as [->|]; done. }
    apply Nat.le_antisymm.
    + apply (length_le_one _ (TSpace b)).
      * apply NoDup_filter. by apply items_NoDup.
      * intros x [Hx _]%list_elem_of_filter. by apply (draws_same _ _ _ _ _ Hb).
    + assert (TSpace b ∈ filter (λ i, draws d (DSpace b) MakeChild i = true) items)
        as Hin by (by apply list_elem_of_filter).
      destruct (filter _ items); [by apply elem_of_nil in Hin|simpl; lia].
  - apply length_zero_iff_nil, elem_of_nil_inv.
    intros x [Hx _]%list_elem_of_filter.
    apply draws_bare_container in Hx as Hb. destruct Hb as (b & -> & ->).
    rewrite andb_true_r in Hm. unfold draws in Hx.
    by rewrite Hm, andb_false_r in Hx.
Qed.

(** C5: for every well-formed input, a folder id of the output is the id
    of a folder of the input, or it is the one string drawn from
    [randomStr] by [make-child] onto a bare space; [randomStr] is called
    once in that case and not at all in any other. *)
Theorem folder_ids_stable_or_minted items d c ty w :
  wellFormed items d c ty →
  (∀ fid, fid ∈ folderIds (fst (reconcile items d c ty w)) →
     fid ∈ folderIds items ∨ (mintsFolder c ty = true ∧ fid = nextId w))
  ∧ randCalls (snd (reconcile items d c ty w))
    = randCalls w + (if mintsFolder c ty then 1 else 0).
Proof.
  intros Hwf. pose proof Hwf as ((Hnd & Hne & Hids) & Hpd & Hpc & Hdc & Hty).
  split.
  - intros fid. rewrite reconcile_pushes by done.
    intros (g & (i & Hg & Hi)%list_elem_of_bind & ->)%folderIds_in.
    by apply (pushes_folder items d c ty Hpd Hpc (nextId w) i g).
  - rewrite reconcile_world. simpl. by rewrite (drawCount_wellFormed items).
Qed.

Lemma folder_ids_stable_or_minted_witness :
  let items := [TSpace "A"; TSpace "B"; TFolder F1] in
  let w := world0 items in
  wellFormed items (DSpace "A") (DSpace "B") MakeChild
  ∧ (∀ fid,
       fid ∈ folderIds (fst (reconcile items (DSpace "A") (DSpace "B") MakeChild w)) →
       fid ∈ folderIds items
       ∨ (mintsFolder (DSpace "B") MakeChild = true ∧ fid = nextId w))
  ∧ randCalls (snd (reconcile items (DSpace "A") (DSpace "B") MakeChild w)) = 1.
Proof.
  intros items w.
  assert (wellFormed items (DSpace "A") (DSpace "B") MakeChild) as Hwf
    by by_evaluation.
  split; [exact Hwf|].
  exact (folder_ids_stable_or_minted items (DSpace "A") (DSpace "B") MakeChild
           w Hwf).
Defined.

(** ** Scenarios: make-child *)

Lemma pushes_make_child_bare fid a b i :
  a ≠ b →
  pushes fid (DSpace a) (DSpace b) MakeChild i
  = if decide (i = TSpace a) then []
    else if decide (i = TSpace b)
         then [TFolder {| id := fid; name := None; content := [b; a] |}]
         else [i].
Proof.
  intros Hab. destruct i as [s|f]; [|by repeat case_decide].
  destruct (decide (TSpace s = TSpace a)) as [[= ->]|Hsa].
  { unfold pushes; simpl. by rewrite String.eqb_refl. }
  destruct (decide (TSpace s = TSpace b)) as [[= ->]|Hsb]; unfold pushes; simpl.
  - rewrite (proj2 (String.eqb_neq b a)) by congruence.
    by rewrite String.eqb_refl.
  - by rewrite !(proj2 (String.eqb_neq s _)) by congruence.
Qed.

Lemma make_child_rest fid a b (l : SidebarItems) :
  a ≠ b → TSpace b ∉ l →
  l ≫= pushes fid (DSpace a) (DSpace b) MakeChild
  = filter (λ i, i ≠ TSpace a) l.
Proof.
  intros Hab. induction l as [|i l IH]; [done|].
  intros [Hi Hl]%not_elem_of_cons.
  rewrite bind_cons, IH, pushes_make_child_bare, filter_cons by done.
  destruct (decide (i = TSpace a)) as [->|Hia].
  - by rewrite decide_False by (by intros ?).
  - by repeat case_decide.
Qed.

(** C3: dragging the bare space [a] onto the bare space [b] with
    [make-child] leaves neither at the top level; the output holds them in
    one place only, a folder with the id just drawn from [randomStr] and
    the content [[b; a]], container first. For [["A", "B", F1]] the output
    is that folder followed by [F1]. *)
Theorem make_child_of_bare_spaces items a b w :
  wellFormed items (DSpace a) (DSpace b) MakeChild →
  let newFolder := {| id := nextId w; name := None; content := [b; a] |} in
  let out := fst (reconcile items (DSpace a) (DSpace b) MakeChild w) in
  (TSpace a ∉ out)
  ∧ (TSpace b ∉ out)
  ∧ (∃ pre post, out = pre ++ TFolder newFolder :: post
       ∧ (a ∉ allSpaces (pre ++ post)) ∧ (b ∉ allSpaces (pre ++ post)))
  ∧ randCalls (snd (reconcile items (DSpace a) (DSpace b) MakeChild w))
    = S (randCalls w)
  ∧ ∀ nm,
      let F := {| id := "F1"; name := nm; content := ["C"; "D"] |} in
      fst (reconcile [TSpace "A"; TSpace "B"; TFolder F]
             (DSpace "A") (DSpace "B") MakeChild w)
      = [TFolder {| id := nextId w; name := None; content := ["B"; "A"] |};
         TFolder F].
Proof.
  intros Hwf newFolder out.
  pose proof Hwf as ((Hnd & Hne & Hids) & Hpa & Hpb & Hdc & Hty).
  assert (a ≠ b) as Hab by congruence.
  simpl in Hpa, Hpb.
  pose proof (items_NoDup items Hnd Hne) as Hitems.
  destruct (list_elem_of_split items (TSpace b) Hpb) as (l1 & l2 & Hsplit).
  assert ((TSpace b ∉ l1) ∧ (TSpace b ∉ l2)) as [Hb1 Hb2].
  { rewrite Hsplit in Hitems. apply NoDup_app in Hitems as (_ & Hdisj & Hb2).
    apply NoDup_cons in Hb2 as [Hb2 _]. split; [|done].
    intros Hin. apply (Hdisj _ Hin). by left. }
  assert (out = filter (λ i, i ≠ TSpace a) l1
                ++ TFolder newFolder :: filter (λ i, i ≠ TSpace a) l2) as Hout.
  { unfold out. rewrite reconcile_pushes by done.
    rewrite Hsplit, bind_app, bind_cons, !make_child_rest by done.
    rewrite pushes_make_child_bare by done.
    rewrite decide_False by congruence. by rewrite decide_True. }
  assert (∀ i, i ∈ filter (λ i, i ≠ TSpace a) l1
               ++ filter (λ i, i ≠ TSpace a) l2 →
               i ∈ items ∧ i ≠ TSpace a ∧ i ≠ TSpace b) as Hrest.
  { intros i. rewrite elem_of_app, !list_elem_of_filter, Hsplit.
    rewrite elem_of_app, elem_of_cons.
    intros [[? ?]|[? ?]]; split_and!; auto; by intros ->. }
  split_and!.
  - rewrite Hout, elem_of_app, elem_of_cons, !list_elem_of_filter.
    intros [[? _]|[?|[? _]]]; done.
  - rewrite Hout, elem_of_app, elem_of_cons, !list_elem_of_filter.
    intros [[_ ?]|[?|[_ ?]]]; done.
  - exists (filter (λ i, i ≠ TSpace a) l1), (filter (λ i, i ≠ TSpace a) l2).
    split; [done|]. split.
    + intros (i & Hsi & Hi)%list_elem_of_bind.
      destruct (Hrest i Hi) as (Hin & Hia & Hib).
      apply (spaces_disjoint items Hnd i (TSpace a) a); [done..| |by left].
      done.
    + intros (i & Hsi & Hi)%list_elem_of_bind.
      destruct (Hrest i Hi) as (Hin & Hia & Hib).
      apply (spaces_disjoint items Hnd i (TSpace b) b); [done..| |by left].
      done.
  - rewrite reconcile_world. simpl.
    rewrite (drawCount_wellFormed items) by done. simpl. lia.
  - intros nm F. rewrite reconcile_pushes; [reflexivity|].
    by_evaluation.
Qed.

Lemma make_child_of_bare_spaces_witness :
  let items := [TSpace "A"; TSpace "B"; TFolder F1] in
  let w := world0 items in
  let out := fst (reconcile items (DSpace "A") (DSpace "B") MakeChild w) in
  wellFormed items (DSpace "A") (DSpace "B") MakeChild
  ∧ (TSpace "A" ∉ out)
  ∧ (TSpace "B" ∉ out)
  ∧ randCalls (snd (reconcile items (DSpace "A") (DSpace "B") MakeChild w)) = 1.
Proof.
  intros items w out.
  assert (wellFormed items (DSpace "A") (DSpace "B") MakeChild) as Hwf
    by by_evaluation.
  destruct (make_child_of_bare_spaces items "A" "B" w Hwf)
    as (Ha & Hb & _ & Hrand & _).
  split; [exact Hwf|]. split; [exact Ha|]. split; [exact Hb|]. exact Hrand.
Defined.

(** ** Purity *)

Lemma draws_mints d c ty i : draws d c ty i = true → mintsFolder c ty = true.
Proof.
  unfold draws, mintsFolder. intros H.
  repeat (apply andb_prop in H as [H ?]). by apply andb_true_intro.
Qed.

(** The output depends on the world only through the strings [randomStr]
    is about to return, and only when the drop makes a folder. *)
Lemma reconcile_agree items d c ty w1 w2 :
  (mintsFolder c ty = true →
   ∀ n, entropy w1 (randCalls w1 + n) = entropy w2 (randCalls w2 + n)) →
  runsAgree items d c ty w1 w2.
Proof.
  unfold runsAgree. revert w1 w2.
  induction items as [|i rest IH]; intros w1 w2 Hent; [done|].
  rewrite !reconcile_cons. f_equal.
  - destruct (draws d c ty i) eqn:Hd; [|by apply pushes_id_irrelevant].
    unfold nextId. specialize (Hent (draws_mints _ _ _ _ Hd) 0).
    rewrite !Nat.add_0_r in Hent. by rewrite Hent.
  - apply IH. intros Hm n. unfold after; simpl.
    destruct (draws d c ty i); [|by apply Hent].
    replace (S (randCalls w1) + n) with (randCalls w1 + S n) by lia.
    replace (S (randCalls w2) + n) with (randCalls w2 + S n) by lia.
    by apply Hent.
Qed.

(** C6 (as amended): the reconciliation is a function of its input and of
    the strings [randomStr] returns: two runs on one input agree as soon
    as the drop makes no folder or the entropy sources agree on the
    strings to come. A run changes nothing in the world but the opened
    state of the drag item's folder, which it may delete, and the number
    of strings drawn; the callback then applies the local echo and writes
    the account data itself. *)
Theorem reconcile_deterministic_up_to_effects
    (mk ps : SidebarItems → SidebarItems) items d c ty w1 w2 :
  (mintsFolder c ty = true →
   ∀ n, entropy w1 (randCalls w1 + n) = entropy w2 (randCalls w2 + n)) →
  runsAgree items d c ty w1 w2
  ∧ (let w' := snd (reconcile items d c ty w1) in
     sidebarItems w' = sidebarItems w1
     ∧ draggingItem w' = draggingItem w1
     ∧ accountData w' = accountData w1
     ∧ entropy w' = entropy w1
     ∧ randCalls w' = randCalls w1 + drawCount d c ty items
     ∧ (openedFolder w' = openedFolder w1
        ∨ openedFolder w' = openedFolder w1 ∖ {[ draggedFolderId d ]}))
  ∧ (let out := fst (reconcile (sidebarItems w1) d c ty w1) in
     let w'' := snd (onReorder mk ps d c ty w1) in
     sidebarItems w'' = ps (mk out)
     ∧ accountData w'' = mk out :: accountData w1).
Proof.
  intros Hent. split; [by apply reconcile_agree|]. split.
  - rewrite reconcile_world. simpl. split_and!; try done.
    destruct (clearsAny d c items); [by right|by left].
  - unfold onReorder, mbind, M_bind.
    pose proof (reconcile_world (sidebarItems w1) d c ty w1) as Hw.
    destruct (reconcile (sidebarItems w1) d c ty w1) as [out w'].
    simpl in *. by subst w'.
Qed.

Lemma reconcile_deterministic_up_to_effects_witness :
  let items := [TSpace "A"; TSpace "B"; TFolder F1] in
  let w1 := world0 items in
  let w2 := {| sidebarItems := []; openedFolder := ∅; draggingItem := None;
               accountData := [items]; entropy := entropy w1; randCalls := 0 |} in
  runsAgree items (DSpace "A") (DSpace "B") MakeChild w1 w2.
Proof.
  intros items w1 w2.
  refine (proj1 (reconcile_deterministic_up_to_effects (λ x, x) (λ x, x)
                   items (DSpace "A") (DSpace "B") MakeChild w1 w2 _)).
  intros _ n. reflexivity.
Defined.

(** C6 as stated fails: a second run on the same input names the new
    folder differently, and a run that takes the last space out of a
    folder deletes the folder's opened state. *)
Lemma reconcile_is_not_pure :
  let items := [TSpace "A"; TSpace "B"; TFolder F1] in
  let w := world0 items in
  let w' := snd (reconcile items (DSpace "A") (DSpace "B") MakeChild w) in
  let G := {| id := "F1"; name := None; content := ["C"] |} in
  let items2 := [TSpace "A"; TFolder G] in
  let d2 := DFolder {| folder := G; spaceId := Some "C"; open := None |} in
  ¬ runsAgree items (DSpace "A") (DSpace "B") MakeChild w w'
  ∧ ¬ leavesWorld items2 d2 (DSpace "A") ReorderBelow (world0 items2).
Proof.
  intros items w w' G items2 d2. split.
  - unfold runsAgree. intros Heq. vm_compute in Heq. discriminate.
  - unfold leavesWorld. rewrite reconcile_world.
    replace (clearsAny d2 (DSpace "A") items2) with true by reflexivity.
    intros Heq%(f_equal openedFolder). simpl in Heq.
    assert ("F1" ∈ ({[ "F1" ]} : gset string)) as Hin
      by (by apply elem_of_singleton).
    rewrite <-Heq in Hin. apply elem_of_difference in Hin as [_ Hin].
    apply Hin. by apply elem_of_singleton.
Qed.

(** ** Drops the drop targets do not offer *)

(** A space dropped onto another space of its folder with [make-child],
    which [useDropTarget] blocks for a target inside a folder: the space is
    appended to the content it is still part of. *)
Lemma make_child_onto_sibling_duplicates :
  let items := [TSpace "A"; TSpace "B"; TFolder F1] in
  let d := DFolder {| folder := F1; spaceId := Some "C"; open := None |} in
  let c := DFolder {| folder := F1; spaceId := Some "D"; open := None |} in
  wellFormed items d c MakeChild
  ∧ fst (reconcile items d c MakeChild (world0 items))
    = [TSpace "A"; TSpace "B";
       TFolder {| id := "F1"; name := None; content := ["C"; "D"; "C"] |}].
Proof.
  intros items d c. split.
  - by_evaluation.
  - vm_compute. reflexivity.
Qed.

(** An instruction type outside the three kinds of the contract reaches
    neither the [reorder-above] nor the [reorder-below] push: a bare space
    dropped onto a space of a folder is gone, and so is that space. *)
Lemma blocked_instruction_loses_spaces :
  let items := [TSpace "A"; TFolder F1] in
  let c := DFolder {| folder := F1; spaceId := Some "C"; open := None |} in
  fst (reconcile items (DSpace "A") c InstructionBlocked (world0 items))
  = [TFolder {| id := "F1"; name := None; content := ["D"] |}].
Proof. vm_compute. reflexivity. Qed.

(** * Further properties of the reconciler and of the handlers *)

(** ** The loop, entry by entry *)

Lemma bind_singletons {A B} (h : A → B) (l : list A) :
  l ≫= (λ x, [h x]) = h <$> l.
Proof. induction l as [|x l IH]; [done|]. by rewrite bind_cons, fmap_cons, IH. Qed.

Lemma NoDup_all_equal {A} (l : list A) (a : A) :
  NoDup l → (∀ x, x ∈ l → x = a) → a ∈ l → l = [a].
Proof.
  intros Hnd Hall Ha. destruct l as [|x [|y l]].
  - by apply elem_of_nil in Ha.
  - f_equal. apply Hall. by left.
  - apply NoDup_cons in Hnd as [Hx _]. destruct Hx.
    rewrite (Hall x), (Hall y); [by left|by right; left|by left].
Qed.

Lemma sameFolders_false_distinct d c cfd :
  c = DFolder cfd → sameFolders d c = false → d ≠ c.
Proof.
  intros -> Hsf ->. simpl in Hsf. by rewrite String.eqb_refl in Hsf.
Qed.

(** With the drag item and the container in different entries, the loop
    rewrites those two entries and leaves every other one in place. *)
Lemma reconcile_explicit_distinct items d c ty w :
  invariants items → present items d → present items c →
  d ≠ c → sameFolders d c = false →
  fst (reconcile items d c ty w)
  = items ≫= λ i,
      if decide (i = origin d) then remainder d
      else if decide (i = origin c) then pushes (nextId w) d c ty (origin c)
      else [i].
Proof.
  intros (Hnd & Hne & Hids) Hpd Hpc Hdc Hsf.
  rewrite reconcile_pushes by done.
  apply Forall_bind_ext, Forall_forall. intros i Hi.
  destruct (decide (i = origin d)) as [->|Hid].
  { unfold pushes. by rewrite Hsf, matchDest_origin. }
  destruct (decide (i = origin c)) as [->|Hic]; [done|].
  apply pushes_other; [by apply (unmatched_d items)|by apply (unmatched_c items)].
Qed.

(** With both in one folder, the loop rewrites that folder only. *)
Lemma reconcile_explicit_same items d c ty w :
  invariants items → present items d → present items c →
  sameFolders d c = true →
  fst (reconcile items d c ty w)
  = items ≫= λ i,
      if decide (i = origin c) then pushes (nextId w) d c ty (origin c)
      else [i].
Proof.
  intros (Hnd & Hne & Hids) Hpd Hpc Hsf.
  rewrite reconcile_pushes by done.
  assert (origin d = origin c) as Heq.
  { destruct (sameFolders_origin items Hids d c) as (?&?&->&->&?); [done..|].
    simpl. by f_equal. }
  apply Forall_bind_ext, Forall_forall. intros i Hi.
  destruct (decide (i = origin c)) as [->|Hic]; [done|].
  apply pushes_other; [apply (unmatched_d items)|apply (unmatched_c items)];
    try done. by rewrite Heq.
Qed.

(** X1: in a sidebar that satisfies the invariants, exactly one entry
    matches a present draggable: the entry it was built from. *)
Theorem matchDest_singles_out_origin items d :
  invariants items → present items d →
  filter (λ i, matchDest i d = true) items = [origin d].
Proof.
  intros (Hnd & Hne & Hids) Hpd.
  apply NoDup_all_equal.
  - apply NoDup_filter. by apply items_NoDup.
  - intros i [Hm Hi]%list_elem_of_filter. by apply (matchDest_unique items).
  - apply list_elem_of_filter. split; [apply matchDest_origin|].
    by apply present_origin.
Qed.

Lemma matchDest_singles_out_origin_witness :
  let items := [TSpace "A"; TSpace "B"; TFolder F1] in
  let d := DFolder {| folder := F1; spaceId := Some "C"; open := None |} in
  invariants items ∧ present items d
  ∧ filter (λ i, matchDest i d = true) items = [TFolder F1].
Proof.
  intros items d.
  assert (invariants items) as Hinv by by_evaluation.
  assert (present items d) as Hpd by by_evaluation.
  split; [exact Hinv|]. split; [exact Hpd|].
  exact (matchDest_singles_out_origin items d Hinv Hpd).
Defined.

(** ** Reordering *)

Lemma splice_explicit ty t child (l1 l2 : list string) :
  t ∉ l1 → t ∉ l2 →
  (l1 ++ t :: l2) ≫= spliceAt ty t child
  = l1 ++ spliceAt ty t child t ++ l2.
Proof.
  intros H1 H2. by rewrite bind_app, bind_cons, !splice_absent by done.
Qed.

Lemma spliceAt_reorder ty t child :
  reorderKind ty →
  spliceAt ty t child t
  = if decide (ty = ReorderAbove) then child ++ [t] else t :: child.
Proof.
  unfold spliceAt. rewrite String.eqb_refl.
  intros [-> | ->]; repeat case_decide; try done. by rewrite app_nil_r.
Qed.

(** X2: a space [a] of a folder dropped above or below another space [b]
    of the same folder changes that folder's content only: the folder
    stays at its place with its id and name, every other entry is left as
    it is, and the new content is the old one without [a], with [a] put
    back immediately before [b] (above) or after it (below). *)
Theorem reorder_within_folder items fd cfd a b ty w :
  wellFormed items (DFolder fd) (DFolder cfd) ty →
  reorderKind ty →
  sameFolders (DFolder fd) (DFolder cfd) = true →
  truthy (spaceId fd) = Some a →
  truthy (spaceId cfd) = Some b →
  a ≠ b →
  ∃ l1 l2,
    filter (λ s, s ≠ a) (content (folder cfd)) = l1 ++ b :: l2
    ∧ fst (reconcile items (DFolder fd) (DFolder cfd) ty w)
      = (λ i, if decide (i = TFolder (folder cfd))
              then TFolder (withContent (folder cfd)
                     (l1 ++ (if decide (ty = ReorderAbove)
                             then [a; b] else [b; a]) ++ l2))
              else i) <$> items.
Proof.
  intros (Hinv & Hpd & Hpc & Hdc & Hty) Hre Hsf Ha Hb Hab.
  pose proof Hinv as (Hnd & Hne & Hids).
  pose proof Hpc as [Hcin Hbin]. rewrite Hb in Hbin.
  assert (NoDup (filter (λ s, s ≠ a) (content (folder cfd)))) as Hndf.
  { apply NoDup_filter. by apply (content_NoDup items). }
  assert (b ∈ filter (λ s, s ≠ a) (content (folder cfd))) as Hbf.
  { apply list_elem_of_filter. split; [congruence|done]. }
  destruct (list_elem_of_split _ _ Hbf) as (l1 & l2 & Hsplit).
  exists l1, l2. split; [done|].
  rewrite Hsplit in Hndf. apply NoDup_app in Hndf as (_ & Hb1 & Hb2).
  apply NoDup_cons in Hb2 as [Hb2 _].
  assert (b ∉ l1) as Hb1' by (intros Hin; apply (Hb1 _ Hin); by left).
  rewrite reconcile_explicit_same by done.
  rewrite <-bind_singletons.
  apply list_bind_ext; [|done]. intros i. simpl.
  destruct (decide (i = TFolder (folder cfd))) as [->|]; [|done].
  unfold pushes. simpl in Hsf. simpl. rewrite Hsf, String.eqb_refl. simpl.
  rewrite decide_False by (destruct Hre as [-> | ->]; done).
  rewrite Hb. unfold dropInside. simpl. rewrite Ha.
  rewrite filter_not_in_singleton, Hsplit, splice_explicit by done.
  rewrite spliceAt_reorder by done.
  by destruct (decide (ty = ReorderAbove)).
Qed.

Lemma reorder_within_folder_witness :
  let F := {| id := "F"; name := Some "work"; content := ["C"; "D"; "E"] |} in
  let items := [TSpace "A"; TFolder F; TSpace "B"] in
  let fd := {| folder := F; spaceId := Some "E"; open := None |} in
  let cfd := {| folder := F; spaceId := Some "C"; open := None |} in
  ∃ l1 l2,
    filter (λ s, s ≠ "E") (content F) = l1 ++ "C" :: l2
    ∧ fst (reconcile items (DFolder fd) (DFolder cfd) ReorderBelow (world0 items))
      = (λ i, if decide (i = TFolder F)
              then TFolder (withContent F
                     (l1 ++ (if decide (ReorderBelow = ReorderAbove)
                             then ["E"; "C"] else ["C"; "E"]) ++ l2))
              else i) <$> items.
Proof.
  intros F items fd cfd.
  refine (reorder_within_folder items fd cfd "E" "C" ReorderBelow (world0 items)
            _ _ _ _ _ _).
  - by_evaluation.
  - by right.
  - reflexivity.
  - reflexivity.
  - reflexivity.
  - discriminate.
Defined.

Lemma pushes_reorder_bare fid a b ty i :
  a ≠ b → reorderKind ty →
  pushes fid (DSpace a) (DSpace b) ty i = reinsertBare a b ty i.
Proof.
  intros Hab Hre. unfold reinsertBare.
  assert (ty ≠ MakeChild) as Hmk by (destruct Hre as [-> | ->]; done).
  destruct i as [s|f]; [|by repeat case_decide].
  destruct (decide (TSpace s = TSpace a)) as [[= ->]|Hsa].
  { unfold pushes; simpl. by rewrite String.eqb_refl. }
  destruct (decide (TSpace s = TSpace b)) as [[= ->]|Hsb]; unfold pushes; simpl.
  - rewrite (proj2 (String.eqb_neq b a)) by congruence.
    rewrite String.eqb_refl, decide_False by done.
    unfold dropAround. destruct Hre as [-> | ->]; by repeat case_decide.
  - by rewrite !(proj2 (String.eqb_neq s _)) by congruence.
Qed.

Lemma reinsertBare_dragged a b ty : reinsertBare a b ty (TSpace a) = [].
Proof. unfold reinsertBare. by rewrite decide_True. Qed.

Lemma reinsertBare_container a b ty :
  a ≠ b →
  reinsertBare a b ty (TSpace b)
  = if decide (ty = ReorderAbove) then [TSpace a; TSpace b]
    else [TSpace b; TSpace a].
Proof.
  intros Hab. unfold reinsertBare.
  rewrite decide_False by congruence. by rewrite decide_True.
Qed.

Lemma reinsertBare_twice a b ty i :
  a ≠ b → reinsertBare a b ty i ≫= reinsertBare a b ty = reinsertBare a b ty i.
Proof.
  intros Hab.
  destruct (decide (i = TSpace a)) as [->|Hia].
  { by rewrite reinsertBare_dragged. }
  destruct (decide (i = TSpace b)) as [->|Hib].
  - rewrite reinsertBare_container by done.
    destruct (decide (ty = ReorderAbove));
      rewrite !bind_cons, reinsertBare_dragged, reinsertBare_container by done;
      simpl; by rewrite ?decide_True, ?decide_False by done.
  - unfold reinsertBare at 2 3. rewrite !decide_False by done.
    rewrite bind_singleton. unfold reinsertBare. by rewrite !decide_False.
Qed.

Lemma reinsertBare_other a b ty i :
  i ≠ TSpace a → i ≠ TSpace b → reinsertBare a b ty i = [i].
Proof. intros. unfold reinsertBare. by repeat case_decide. Qed.

(** X3: a bare space [a] dropped above or below another bare space [b]
    leaves its place and comes back immediately before [b] (above) or after
    it (below); every other entry stays where it is, so the top level keeps
    its length. *)
Theorem reorder_bare_spaces items a b ty w :
  wellFormed items (DSpace a) (DSpace b) ty →
  reorderKind ty →
  fst (reconcile items (DSpace a) (DSpace b) ty w)
  = items ≫= reinsertBare a b ty
  ∧ length (fst (reconcile items (DSpace a) (DSpace b) ty w)) = length items.
Proof.
  intros ((Hnd & Hne & Hids) & Hpa & Hpb & Hdc & Hty) Hre.
  assert (a ≠ b) as Hab by congruence.
  assert (fst (reconcile items (DSpace a) (DSpace b) ty w)
          = items ≫= reinsertBare a b ty) as Hout.
  { rewrite reconcile_pushes by done.
    apply list_bind_ext; [|done]. intros i. by apply pushes_reorder_bare. }
  split; [done|]. rewrite Hout.
  destruct (pick_two items (TSpace a) (TSpace b)) as (k & Hk & Hak & Hbk);
    [by apply items_NoDup|done|done|congruence|].
  assert (k ≫= reinsertBare a b ty = k) as Hrest.
  { clear Hk. induction k as [|j k IH]; [done|].
    apply not_elem_of_cons in Hak as [? ?], Hbk as [? ?].
    by rewrite bind_cons, IH, reinsertBare_other by done. }
  rewrite Hk, !bind_cons, Hrest. unfold reinsertBare.
  rewrite decide_True by done.
  rewrite decide_False, decide_True by congruence.
  by destruct (decide (ty = ReorderAbove)).
Qed.

Lemma reorder_bare_spaces_witness :
  let items := [TSpace "A"; TFolder F1; TSpace "B"] in
  fst (reconcile items (DSpace "B") (DSpace "A") ReorderAbove (world0 items))
  = items ≫= reinsertBare "B" "A" ReorderAbove
  ∧ length (fst (reconcile items (DSpace "B") (DSpace "A") ReorderAbove
                   (world0 items))) = 3.
Proof.
  intros items.
  refine (reorder_bare_spaces items "B" "A" ReorderAbove (world0 items) _ _).
  - by_evaluation.
  - by left.
Defined.

(** X4: the same reorder applied to its own result changes nothing: once
    [a] sits immediately above (below) [b], dropping it there again gives
    the same sidebar. *)
Theorem reorder_bare_spaces_idempotent items a b ty w w' :
  wellFormed items (DSpace a) (DSpace b) ty →
  reorderKind ty →
  fst (reconcile (fst (reconcile items (DSpace a) (DSpace b) ty w))
         (DSpace a) (DSpace b) ty w')
  = fst (reconcile items (DSpace a) (DSpace b) ty w).
Proof.
  intros Hwf Hre.
  pose proof (reconcile_spaces_perm items (DSpace a) (DSpace b) ty w Hwf) as Hperm.
  destruct Hwf as ((Hnd & Hne & Hids) & Hpa & Hpb & Hdc & Hty).
  assert (a ≠ b) as Hab by congruence.
  assert (∀ l w0, NoDup (allSpaces l) →
            fst (reconcile l (DSpace a) (DSpace b) ty w0)
            = l ≫= reinsertBare a b ty) as Hrun.
  { intros l w0 Hl. rewrite reconcile_pushes by done.
    apply list_bind_ext; [|done]. intros i. by apply pushes_reorder_bare. }
  rewrite (Hrun items w Hnd). rewrite Hrun.
  - clear -Hab. induction items as [|i rest IH]; [done|].
    by rewrite !bind_cons, bind_app, IH, reinsertBare_twice.
  - rewrite <-(Hrun items w Hnd), Hperm; [done|]. by intros ?.
Qed.

Lemma reorder_bare_spaces_idempotent_witness :
  let items := [TSpace "A"; TFolder F1; TSpace "B"] in
  let once := fst (reconcile items (DSpace "B") (DSpace "A") ReorderBelow
                     (world0 items)) in
  fst (reconcile once (DSpace "B") (DSpace "A") ReorderBelow (world0 once))
  = once.
Proof.
  intros items once.
  refine (reorder_bare_spaces_idempotent items "B" "A" ReorderBelow
            (world0 items) (world0 once) _ _).
  - by_evaluation.
  - by right.
Defined.

(** ** Make-child onto a folder *)

(** X5: [make-child] onto a folder other than the drag item's own appends
    the dragged content at the end of that folder's content; the folder
    keeps its place, its id and its name, the drag item leaves its old
    place, every other entry is left as it is, and [randomStr] is not
    called. *)
Theorem make_child_into_folder items d cfd w :
  wellFormed items d (DFolder cfd) MakeChild →
  sameFolders d (DFolder cfd) = false →
  fst (reconcile items d (DFolder cfd) MakeChild w)
  = (items ≫= λ i,
       if decide (i = origin d) then remainder d
       else if decide (i = TFolder (folder cfd)) then
         [TFolder (withContent (folder cfd)
                     (content (folder cfd) ++ itemAsFolderContent d))]
       else [i])
  ∧ randCalls (snd (reconcile items d (DFolder cfd) MakeChild w)) = randCalls w.
Proof.
  intros Hwf Hsf. pose proof Hwf as (Hinv & Hpd & Hpc & Hdc & Hty).
  pose proof Hinv as (Hnd & Hne & Hids). split.
  - rewrite reconcile_explicit_distinct by done.
    apply list_bind_ext; [|done]. intros i.
    destruct (decide (i = origin d)); [done|]. simpl.
    destruct (decide (i = TFolder (folder cfd))); [|done].
    pose proof (origin_c_not_dragged items d (DFolder cfd) Hids Hpd Hpc
                  (distinct_origins d (DFolder cfd) Hdc Hsf)) as Hnot.
    pose proof (matchDest_origin (DFolder cfd)) as Hc.
    unfold pushes. simpl in Hnot, Hc. simpl.
    by rewrite Hnot, andb_false_r, Hc.
  - rewrite reconcile_world. simpl.
    rewrite (drawCount_wellFormed items) by done. simpl. lia.
Qed.

Lemma make_child_into_folder_witness :
  let G := {| id := "G"; name := Some "games"; content := ["X"] |} in
  let items := [TFolder F1; TSpace "A"; TFolder G] in
  let d := DFolder {| folder := F1; spaceId := None; open := None |} in
  let cfd := {| folder := G; spaceId := None; open := None |} in
  fst (reconcile items d (DFolder cfd) MakeChild (world0 items))
  = [TSpace "A";
     TFolder {| id := "G"; name := Some "games"; content := ["X"; "C"; "D"] |}].
Proof.
  intros G items d cfd.
  refine (eq_trans
            (proj1 (make_child_into_folder items d cfd (world0 items) _ _)) _).
  - by_evaluation.
  - reflexivity.
  - vm_compute. reflexivity.
Defined.

(** ** The opened-folder state *)

Lemma clearsAny_true items d c :
  clearsAny d c items = true → sameFolders d c = false ∧ emptiesOwnFolder d.
Proof.
  intros (i & _ & Hc)%existsb_exists. unfold clears in Hc.
  apply andb_prop in Hc as [[Hsf _]%andb_prop Hemp].
  split; [by apply negb_true_iff|].
  destruct d as [s|fd]; [done|]. simpl.
  destruct (truthy (spaceId fd)); [|done].
  by apply Nat.eqb_eq, length_zero_iff_nil in Hemp.
Qed.

(** X6: the loop deletes the opened state of the drag item's folder
    exactly when the drag takes the last space out of that folder to a
    container of another entry; in every other case, a pull-out next to
    the folder itself included, the opened-folder state is left as it
    is. *)
Theorem opened_state_after_reconcile items d c ty w :
  present items d →
  openedFolder (snd (reconcile items d c ty w))
  = if decide (sameFolders d c = false ∧ emptiesOwnFolder d)
    then openedFolder w ∖ {[ draggedFolderId d ]}
    else openedFolder w.
Proof.
  intros Hpd. rewrite reconcile_world. simpl.
  destruct (decide (sameFolders d c = false ∧ emptiesOwnFolder d)) as [[? ?]|Hno].
  - by rewrite clearsAny_origin.
  - destruct (clearsAny d c items) eqn:Hc; [|done].
    by apply clearsAny_true in Hc.
Qed.

Lemma opened_state_after_reconcile_witness :
  let G := {| id := "F1"; name := None; content := ["C"] |} in
  let items := [TSpace "A"; TFolder G] in
  let d := DFolder {| folder := G; spaceId := Some "C"; open := None |} in
  let c := DFolder {| folder := G; spaceId := None; open := Some true |} in
  openedFolder (snd (reconcile items d c ReorderAbove (world0 items)))
  = openedFolder (world0 items).
Proof.
  intros G items d c.
  refine (eq_trans
            (opened_state_after_reconcile items d c ReorderAbove (world0 items) _)
            _).
  - by_evaluation.
  - destruct (decide (sameFolders d c = false ∧ emptiesOwnFolder d))
      as [[Hsf _]|_]; [discriminate Hsf|reflexivity].
Defined.

(** ** The drop monitor with the callbacks of [SpaceTabs] *)

Lemma reconcile_ignores_dragging items d c ty w x :
  fst (reconcile items d c ty (snd (setDraggingItem x w)))
  = fst (reconcile items d c ty w).
Proof. by apply reconcile_agree. Qed.

(** X7: whatever the drop targets, a completed drop leaves no dragging
    item behind. *)
Theorem drop_clears_dragging_item (mk ps : SidebarItems → SidebarItems)
    (source : SidebarDraggable) (dropTargets : list DropTargetData) (w : World) :
  draggingItem (snd (onDrop setDraggingItem (onReorder mk ps) source
                       dropTargets w)) = None.
Proof.
  unfold onDrop, mbind, M_bind. simpl.
  destruct dropTargets as [|t rest]; [done|].
  destruct (instructionType t) as [ty|]; [|done].
  unfold onReorder, mbind, M_bind. simpl.
  set (w0 := mkWorld _ _ _ _ _ _).
  pose proof (reconcile_world (sidebarItems w) source (item t) ty w0) as Hw.
  destruct (reconcile (sidebarItems w) source (item t) ty w0) as [out w'].
  simpl in *. by subst w'.
Qed.

(** X8: a drop whose topmost target carries an instruction type records
    exactly one account-data write, the reconciliation of the sidebar as
    it was against that target alone, and echoes it locally; the drop
    targets below the topmost one play no part. *)
Theorem drop_persists_reconciliation (mk ps : SidebarItems → SidebarItems)
    (source : SidebarDraggable) (t : DropTargetData)
    (rest : list DropTargetData) (ty : InstructionType) (w : World) :
  instructionType t = Some ty →
  let out := fst (reconcile (sidebarItems w) source (item t) ty w) in
  let w' := snd (onDrop setDraggingItem (onReorder mk ps) source (t :: rest) w) in
  accountData w' = mk out :: accountData w
  ∧ sidebarItems w' = ps (mk out).
Proof.
  intros Hty out w'. unfold w', out, onDrop, mbind, M_bind. simpl.
  rewrite Hty. unfold onReorder, mbind, M_bind. simpl.
  set (w0 := mkWorld _ _ _ _ _ _).
  pose proof (reconcile_world (sidebarItems w) source (item t) ty w0) as Hw.
  pose proof (reconcile_ignores_dragging (sidebarItems w) source (item t) ty w None)
    as Hout.
  change (snd (setDraggingItem None w)) with w0 in Hout.
  change (sidebarItems w0) with (sidebarItems w).
  destruct (reconcile (sidebarItems w) source (item t) ty w0) as [out0 w1].
  simpl in *. subst w1 out0. done.
Qed.

Lemma drop_persists_reconciliation_witness :
  let items := [TSpace "A"; TSpace "B"; TFolder F1] in
  let t := {| item := DSpace "B"; instructionType := Some ReorderBelow |} in
  let w' := snd (onDrop setDraggingItem (onReorder (λ x, x) (λ x, x))
                   (DSpace "A") [t] (world0 items)) in
  accountData w'
  = [fst (reconcile items (DSpace "A") (DSpace "B") ReorderBelow (world0 items))]
  ∧ sidebarItems w'
    = fst (reconcile items (DSpace "A") (DSpace "B") ReorderBelow (world0 items)).
Proof.
  intros items t.
  exact (drop_persists_reconciliation (λ x, x) (λ x, x) (DSpace "A") t []
           ReorderBelow (world0 items) eq_refl).
Defined.

(** ** Folder toggle *)

(** X9: toggling a folder flips its opened state and no other one, and
    toggling it again restores the opened-folder state. *)
Theorem folder_toggle_flips (data_id : option string) (fid : string) (w : World) :
  truthy data_id = Some fid →
  let w1 := snd (handleFolderToggle data_id w) in
  (fid ∈ openedFolder w1 ↔ fid ∉ openedFolder w)
  ∧ (∀ j, j ≠ fid → j ∈ openedFolder w1 ↔ j ∈ openedFolder w)
  ∧ openedFolder (snd (handleFolderToggle data_id w1)) = openedFolder w.
Proof.
  intros Hid. unfold handleFolderToggle. rewrite Hid. simpl.
  destruct (decide (fid ∈ openedFolder w)) as [Hin|Hout].
  - rewrite (bool_decide_eq_true_2 _ Hin). simpl. split_and!.
    + rewrite elem_of_difference, elem_of_singleton. tauto.
    + intros j Hj. rewrite elem_of_difference, elem_of_singleton. tauto.
    + rewrite bool_decide_eq_false_2; simpl.
      * apply set_eq. intros j.
        rewrite elem_of_union, elem_of_difference, !elem_of_singleton.
        destruct (decide (j = fid)) as [->|]; tauto.
      * rewrite elem_of_difference, elem_of_singleton. tauto.
  - rewrite (bool_decide_eq_false_2 _ Hout). simpl. split_and!.
    + rewrite elem_of_union, elem_of_singleton. tauto.
    + intros j Hj. rewrite elem_of_union, elem_of_singleton. tauto.
    + rewrite bool_decide_eq_true_2; simpl.
      * apply set_eq. intros j.
        rewrite elem_of_difference, elem_of_union, !elem_of_singleton.
        destruct (decide (j = fid)) as [->|]; tauto.
      * rewrite elem_of_union, elem_of_singleton. tauto.
Qed.

Lemma folder_toggle_flips_witness :
  let w := world0 [] in
  let w1 := snd (handleFolderToggle (Some "F1") w) in
  ("F1" ∈ openedFolder w1 ↔ "F1" ∉ openedFolder w)
  ∧ (∀ j, j ≠ "F1" → j ∈ openedFolder w1 ↔ j ∈ openedFolder w)
  ∧ openedFolder (snd (handleFolderToggle (Some "F1") w1)) = openedFolder w.
Proof.
  intros w.
  exact (folder_toggle_flips (Some "F1") "F1" w eq_refl).
Defined.

(** ** Folder names *)

Section FolderNames.
Context (items : SidebarItems) (d c : SidebarDraggable) (ty : InstructionType).
Hypothesis present_d : present items d.
Hypothesis present_c : present items c.

(** The folder [g] is a folder of the sidebar up to its content. *)
Let kept (g : ISidebarFolder) : Prop :=
  ∃ f, TFolder f ∈ items ∧ id g = id f ∧ name g = name f.

Lemma kept_withContent f l : TFolder f ∈ items → kept (withContent f l).
Proof. intros Hf. by exists f. Qed.

Lemma kept_elem g : TFolder g ∈ items → kept g.
Proof. intros Hg. by exists g. Qed.

Lemma remainder_kept g : TFolder g ∈ remainder d → kept g.
Proof using present_d.
  pose proof present_d as Hpd.
  destruct d as [s|fd]; simpl; [by intros ?%elem_of_nil|].
  destruct Hpd as [Hin _].
  destruct (truthy (spaceId fd)); [|by intros ?%elem_of_nil].
  destruct (length _ =? 0)%nat; [by intros ?%elem_of_nil|].
  intros [= ->]%list_elem_of_singleton. by apply kept_withContent.
Qed.

Lemma dropAround_kept c' i g :
  i ∈ items → TFolder g ∈ dropAround d c' ty i → kept g.
Proof using present_d.
  intros Hi. pose proof present_d as Hpd.
  assert (TFolder g = i → kept g) as Hgi by (intros <-; by apply kept_elem).
  unfold dropAround. destruct d as [s|fd].
  - rewrite !elem_of_app. intros [?%elem_of_when|[Hs|?%elem_of_when]]; auto.
    by apply list_elem_of_singleton in Hs.
  - destruct Hpd as [Hin _]. destruct (truthy (spaceId fd)) as [sp|].
    + rewrite !elem_of_app. intros [?%elem_of_when|[Hm|?%elem_of_when]];
        [done| |done].
      destruct i as [s|fi]; [by apply list_elem_of_singleton in Hm; auto|].
      destruct (sameFolders _ _);
        [|by apply list_elem_of_singleton in Hm; auto].
      destruct (0 <? _)%nat; [|by apply elem_of_nil in Hm].
      apply list_elem_of_singleton in Hm as [= ->].
      by apply kept_withContent.
    + rewrite !elem_of_app. intros [?%elem_of_when|[Hs|?%elem_of_when]]; auto.
      apply list_elem_of_singleton in Hs as [= ->]. by apply kept_elem.
Qed.

Lemma pushes_kept fid0 i g :
  i ∈ items →
  TFolder g ∈ pushes fid0 d c ty i →
  kept g ∨ (mintsFolder c ty = true ∧ id g = fid0 ∧ name g = None).
Proof using present_d present_c.
  intros Hi. unfold pushes, mintsFolder.
  destruct (negb (sameFolders d c) && matchDest i d).
  { left. by apply remainder_kept. }
  destruct (matchDest i c).
  2:{ intros <-%list_elem_of_singleton. left. by apply kept_elem. }
  pose proof present_c as Hpc.
  destruct (decide (ty = MakeChild)) as [->|Hmk].
  { unfold merged. destruct c as [b|cfd];
      intros [= ->]%list_elem_of_singleton; simpl; [by right|].
    left. destruct Hpc as [? _]. by apply kept_withContent. }
  destruct c as [b|cfd];
    [intros Hg; left; by apply (dropAround_kept (DSpace b) i g)|].
  destruct (truthy (spaceId cfd));
    [|intros Hg; left; by apply (dropAround_kept (DFolder cfd) i g)].
  unfold dropInside. intros [= ->]%list_elem_of_singleton. left.
  destruct Hpc as [? _]. by apply kept_withContent.
Qed.
End FolderNames.

(** X11: no drop renames a folder: every folder of the output carries the
    id and the name of a folder of the input, except the one folder that
    [make-child] onto a bare space makes, which has the id just drawn and
    no name. *)
Theorem folders_keep_their_names items d c ty w g :
  wellFormed items d c ty →
  TFolder g ∈ fst (reconcile items d c ty w) →
  (∃ f, TFolder f ∈ items ∧ id g = id f ∧ name g = name f)
  ∨ (mintsFolder c ty = true ∧ id g = nextId w ∧ name g = None).
Proof.
  intros ((Hnd & Hne & Hids) & Hpd & Hpc & Hdc & Hty).
  rewrite reconcile_pushes by done.
  intros (i & Hg & Hi)%list_elem_of_bind.
  by apply (pushes_kept items d c ty Hpd Hpc (nextId w) i g).
Qed.

Lemma folders_keep_their_names_witness :
  let F := {| id := "F"; name := Some "work"; content := ["C"; "D"] |} in
  let items := [TSpace "A"; TFolder F] in
  let d := DSpace "A" in
  let c := DFolder {| folder := F; spaceId := Some "D"; open := None |} in
  let g := {| id := "F"; name := Some "work"; content := ["C"; "A"; "D"] |} in
  (∃ f, TFolder f ∈ items ∧ id g = id f ∧ name g = name f)
  ∨ (mintsFolder c ReorderAbove = true ∧ id g = nextId (world0 items)
     ∧ name g = None).
Proof.
  intros F items d c g.
  refine (folders_keep_their_names items d c ReorderAbove (world0 items) g _ _).
  - by_evaluation.
  - by_evaluation.
Defined.

(** ** Instruction types outside the contract, and self-drops *)

Lemma splice_off_contract ty t child (l : list string) :
  ¬ reorderKind ty → l ≫= spliceAt ty t child = filter (λ s, s ≠ t) l.
Proof.
  intros Hre. induction l as [|s l IH]; [done|].
  rewrite bind_cons, IH, filter_cons. unfold spliceAt.
  destruct (String.eqb_spec s t) as [->|Hne].
  - repeat case_decide; try done; destruct Hre; subst;
      first [by left|by right].
  - by repeat case_decide.
Qed.

Lemma spaces_of_entry_NoDup items x :
  NoDup (allSpaces items) → x ∈ items → NoDup (spacesOf x).
Proof.
  intros Hnd [k Hk]%elem_of_Permutation. rewrite Hk, allSpaces_cons in Hnd.
  by apply NoDup_app in Hnd as (? & _ & _).
Qed.

Lemma remainder_spaces_in_origin items d s :
  NoDup (allSpaces items) → present items d →
  s ∈ allSpaces (remainder d) →
  s ∈ spacesOf (origin d) ∧ s ∉ itemAsFolderContent d.
Proof.
  intros Hnd Hpd Hs.
  pose proof (removal_account items d Hnd Hpd) as Hperm.
  pose proof (spaces_of_entry_NoDup items (origin d) Hnd
                (present_origin items d Hpd)) as Hnd'.
  rewrite <-Hperm in Hnd'. apply NoDup_app in Hnd' as (_ & Hdisj & _).
  split; [|by apply Hdisj].
  rewrite <-Hperm. apply elem_of_app. by left.
Qed.

(** What the drop inside a folder pushes for an instruction type that is
    neither [reorder-above] nor [reorder-below] nor [make-child]. *)
Lemma dropInside_off_contract d cf csp ty :
  ¬ reorderKind ty →
  dropInside d cf csp ty
  = [TFolder (withContent cf
       (filter (λ s, s ≠ csp)
               (filter (λ s, s ∉ itemAsFolderContent d) (content cf))))].
Proof. intros Hre. unfold dropInside. by rewrite splice_off_contract. Qed.

(** X12: an instruction type outside the three kinds of the contract
    (['reparent'], a blocked instruction) dropped onto a space of a folder
    takes that space out of the sidebar, and the dragged content with it:
    neither is pushed anywhere. *)
Theorem off_contract_instruction_loses_spaces items d cfd csp ty w :
  invariants items →
  present items d →
  present items (DFolder cfd) →
  truthy (spaceId cfd) = Some csp →
  ¬ contractKind ty →
  (csp ∉ allSpaces (fst (reconcile items d (DFolder cfd) ty w)))
  ∧ ∀ s, s ∈ itemAsFolderContent d →
         s ∉ allSpaces (fst (reconcile items d (DFolder cfd) ty w)).
Proof.
  intros Hinv Hpd Hpc Hcsp Hoff. pose proof Hinv as (Hnd & Hne & Hids).
  assert (ty ≠ MakeChild) as Hmk.
  { intros ->. apply Hoff. by right; right. }
  assert (¬ reorderKind ty) as Hre.
  { intros [-> | ->]; apply Hoff; [by left|by right; left]. }
  pose proof Hpc as [Hcin Hin]. rewrite Hcsp in Hin.
  set (nc := filter (λ s, s ≠ csp)
               (filter (λ s, s ∉ itemAsFolderContent d) (content (folder cfd)))).
  assert (csp ∉ nc) as Hnc1.
  { by intros [? _]%list_elem_of_filter. }
  assert (∀ s, s ∈ itemAsFolderContent d → s ∉ nc) as Hnc2.
  { by intros s Hs [_ [? _]%list_elem_of_filter]%list_elem_of_filter. }
  assert (∀ s, s ∈ nc → s ∈ content (folder cfd)) as Hnc3.
  { by intros s [_ [_ ?]%list_elem_of_filter]%list_elem_of_filter. }
  assert (∀ fid, matchDest (TFolder (folder cfd)) d = false
                 ∨ sameFolders d (DFolder cfd) = true →
            allSpaces (pushes fid d (DFolder cfd) ty (origin (DFolder cfd)))
            = nc) as Hpush.
  { intros fid Hcase. unfold pushes, origin.
    assert (negb (sameFolders d (DFolder cfd))
            && matchDest (TFolder (folder cfd)) d = false) as ->.
    { destruct Hcase as [-> | ->]; [apply andb_false_r|done]. }
    change (matchDest (TFolder (folder cfd)) (DFolder cfd))
      with (String.eqb (id (folder cfd)) (id (folder cfd))).
    rewrite String.eqb_refl, decide_False, Hcsp by done.
    rewrite dropInside_off_contract by done.
    unfold allSpaces. by rewrite bind_singleton. }
  rewrite reconcile_pushes by done.
  destruct (sameFolders d (DFolder cfd)) eqn:Hsf.
  - destruct (pushes_same_folder items d (DFolder cfd) ty (nextId w))
      as (k & Hk & Hout); [done..|].
    assert (allSpaces (items ≫= pushes (nextId w) d (DFolder cfd) ty)
            ≡ₚ nc ++ allSpaces k) as Hall.
    { by rewrite Hout, allSpaces_app, Hpush by (by right). }
    assert (origin d = origin (DFolder cfd)) as Heq.
    { destruct (sameFolders_origin items Hids d (DFolder cfd))
        as (?&?&->&[= <-]&?); [done..|]. simpl. by f_equal. }
    rewrite Hk, allSpaces_cons in Hnd.
    apply NoDup_app in Hnd as (_ & Hdisj & _). simpl in Hdisj.
    split.
    + rewrite Hall, elem_of_app. intros [?|?]; [done|]. by apply (Hdisj csp).
    + intros s Hs. rewrite Hall, elem_of_app.
      intros [?|Hk']; [by apply (Hnc2 s)|].
      apply (Hdisj s); [|done].
      apply (child_in_origin items d Hpd) in Hs. by rewrite Heq in Hs.
  - pose proof (sameFolders_false_distinct d (DFolder cfd) cfd eq_refl Hsf) as Hdc.
    pose proof (distinct_origins d (DFolder cfd) Hdc Hsf) as Hxy.
    destruct (pushes_distinct items d (DFolder cfd) ty (nextId w))
      as (k & Hk & Hout); [done..|].
    assert (allSpaces (items ≫= pushes (nextId w) d (DFolder cfd) ty)
            ≡ₚ allSpaces (remainder d) ++ nc ++ allSpaces k) as Hall.
    { rewrite Hout, !allSpaces_app, Hpush; [done|].
      left. by apply (origin_c_not_dragged items d (DFolder cfd)). }
    pose proof Hnd as Hnd0.
    rewrite Hk, !allSpaces_cons in Hnd.
    apply NoDup_app in Hnd as (_ & Hd1 & Hnd).
    apply NoDup_app in Hnd as (_ & Hd2 & _). simpl in Hd1, Hd2.
    split.
    + rewrite Hall, !elem_of_app.
      intros [Hr|[?|?]]; [|done|by apply (Hd2 csp)].
      apply (remainder_spaces_in_origin items d) in Hr as [Hr _]; [|done..].
      apply (Hd1 csp Hr). apply elem_of_app. by left.
    + intros s Hs. rewrite Hall, !elem_of_app. intros [Hr|[Hn|Hk']].
      * by apply (remainder_spaces_in_origin items d) in Hr as [_ ?].
      * by apply (Hnc2 s).
      * apply (child_in_origin items d Hpd) in Hs.
        apply (Hd1 s Hs). apply elem_of_app. by right.
Qed.

Lemma off_contract_instruction_loses_spaces_witness :
  let items := [TSpace "A"; TFolder F1] in
  let cfd := {| folder := F1; spaceId := Some "C"; open := None |} in
  let out := fst (reconcile items (DSpace "A") (DFolder cfd) InstructionBlocked
                    (world0 items)) in
  ("C" ∉ allSpaces out) ∧ ∀ s, s ∈ ["A"] → s ∉ allSpaces out.
Proof.
  intros items cfd.
  refine (off_contract_instruction_loses_spaces items (DSpace "A") cfd "C"
            InstructionBlocked (world0 items) _ _ _ _ _).
  - by_evaluation.
  - by_evaluation.
  - by_evaluation.
  - reflexivity.
  - intros [H|[H|H]]; discriminate H.
Defined.

(** X13: [canDrop] lets through a drop target that is another object with
    the same fields as the drag item, and the reconciler, given a space of
    a folder as both drag item and container, pushes that folder without
    the space: the space is gone from the sidebar. *)
Theorem self_drop_through_copy_loses_space
    (h : Heap) (p q : nat) (fd : FolderDraggable) items a ty w :
  h !! p = Some fd → h !! q = Some fd → p ≠ q →
  invariants items →
  present items (DFolder fd) →
  truthy (spaceId fd) = Some a →
  ty ≠ MakeChild →
  canDrop (JsObject q) (JsObject p) = true
  ∧ deref h (JsObject p) = Some (DFolder fd)
  ∧ deref h (JsObject q) = Some (DFolder fd)
  ∧ (a ∉ allSpaces (fst (reconcile items (DFolder fd) (DFolder fd) ty w))).
Proof.
  intros Hp Hq Hpq Hinv Hpd Ha Hmk. pose proof Hinv as (Hnd & Hne & Hids).
  split_and!.
  - apply negb_true_iff, Nat.eqb_neq. congruence.
  - simpl. by rewrite Hp.
  - simpl. by rewrite Hq.
  - assert (sameFolders (DFolder fd) (DFolder fd) = true) as Hsf
      by apply String.eqb_refl.
    rewrite reconcile_pushes by done.
    destruct (pushes_same_folder items (DFolder fd) (DFolder fd) ty (nextId w))
      as (k & Hk & ->); [done..|].
    pose proof Hpd as [Hin Hain]. rewrite Ha in Hain.
    rewrite allSpaces_app.
    assert (allSpaces (pushes (nextId w) (DFolder fd) (DFolder fd) ty
                         (origin (DFolder fd)))
            = filter (λ s, s ≠ a) (content (folder fd))) as ->.
    { unfold pushes. simpl. rewrite String.eqb_refl. simpl.
      rewrite decide_False, Ha by done. unfold dropInside. simpl. rewrite Ha.
      rewrite filter_not_in_singleton, splice_absent.
      - apply app_nil_r.
      - by intros [? _]%list_elem_of_filter. }
    rewrite Hk, allSpaces_cons in Hnd.
    apply NoDup_app in Hnd as (_ & Hdisj & _). simpl in Hdisj.
    rewrite elem_of_app. intros [[? _]%list_elem_of_filter|?]; [done|].
    by apply (Hdisj a).
Qed.

Lemma self_drop_through_copy_loses_space_witness :
  let items := [TSpace "A"; TFolder F1] in
  let fd := {| folder := F1; spaceId := Some "C"; open := None |} in
  let h : Heap := <[ 1 := fd ]> (<[ 0 := fd ]> ∅) in
  canDrop (JsObject 1) (JsObject 0) = true
  ∧ deref h (JsObject 0) = Some (DFolder fd)
  ∧ deref h (JsObject 1) = Some (DFolder fd)
  ∧ ("C" ∉ allSpaces (fst (reconcile items (DFolder fd) (DFolder fd)
                             ReorderAbove (world0 items)))).
Proof.
  intros items fd h.
  refine (self_drop_through_copy_loses_space h 0 1 fd items "C" ReorderAbove
            (world0 items) _ _ _ _ _ _ _).
  - reflexivity.
  - reflexivity.
  - discriminate.
  - by_evaluation.
  - by_evaluation.
  - reflexivity.
  - discriminate.
Defined.

(** ** The other drops, entry by entry *)

Lemma pushes_at_container items d c ty fid :
  NoDup (folderIds items) → present items d → present items c →
  d ≠ c → sameFolders d c = false →
  pushes fid d c ty (origin c)
  = if decide (ty = MakeChild) then merged fid d c
    else match c with
         | DFolder cfd =>
             match truthy (spaceId cfd) with
             | Some csp => dropInside d (folder cfd) csp ty
             | None => dropAround d c ty (origin c)
             end
         | DSpace _ => dropAround d c ty (origin c)
         end.
Proof.
  intros Hids Hpd Hpc Hdc Hsf. unfold pushes.
  rewrite (origin_c_not_dragged items d c), andb_false_r;
    auto using distinct_origins.
  by rewrite matchDest_origin.
Qed.

Lemma dropAround_distinct d c ty i :
  reorderKind ty → sameFolders d c = false →
  dropAround d c ty i
  = if decide (ty = ReorderAbove) then [movedEntry d; i] else [i; movedEntry d].
Proof.
  intros Hre Hsf. unfold dropAround, movedEntry. rewrite Hsf.
  destruct d as [s|fd].
  - destruct Hre as [-> | ->]; by repeat case_decide.
  - destruct (truthy (spaceId fd)).
    + destruct i; destruct Hre as [-> | ->]; by repeat case_decide.
    + destruct Hre as [-> | ->]; by repeat case_decide.
Qed.

(** X14: a drag item dropped above or below a bare space or a whole folder
    of another entry leaves its old place (a space dragged out of a folder
    leaves the rest of that folder there, if any) and comes back as a
    top-level entry immediately before (above) or after (below) the
    container; every other entry is left as it is. *)
Theorem reorder_at_top_level items d c ty w :
  wellFormed items d c ty →
  reorderKind ty →
  sameFolders d c = false →
  draggedSpace c = None →
  fst (reconcile items d c ty w)
  = items ≫= λ i,
      if decide (i = origin d) then remainder d
      else if decide (i = origin c) then
        if decide (ty = ReorderAbove) then [movedEntry d; origin c]
        else [origin c; movedEntry d]
      else [i].
Proof.
  intros (Hinv & Hpd & Hpc & Hdc & Hty) Hre Hsf Hc0.
  pose proof Hinv as (Hnd & Hne & Hids).
  rewrite reconcile_explicit_distinct by done.
  apply list_bind_ext; [|done]. intros i.
  destruct (decide (i = origin d)); [done|].
  destruct (decide (i = origin c)); [|done].
  rewrite (pushes_at_container items) by done.
  rewrite decide_False by (destruct Hre as [-> | ->]; done).
  destruct c as [b|cfd]; [by apply dropAround_distinct|].
  simpl in Hc0. rewrite Hc0. by apply dropAround_distinct.
Qed.

Lemma reorder_at_top_level_witness :
  let G := {| id := "G"; name := None; content := ["X"] |} in
  let items := [TFolder F1; TSpace "A"; TFolder G] in
  let d := DFolder {| folder := G; spaceId := Some "X"; open := None |} in
  let c := DFolder {| folder := F1; spaceId := None; open := None |} in
  fst (reconcile items d c ReorderBelow (world0 items))
  = [TFolder F1; TSpace "X"; TSpace "A"].
Proof.
  intros G items d c.
  refine (eq_trans (reorder_at_top_level items d c ReorderBelow (world0 items)
                      _ _ _ _) _).
  - by_evaluation.
  - by right.
  - reflexivity.
  - reflexivity.
  - vm_compute. reflexivity.
Defined.

(** X15: [make-child] onto a bare space [b] replaces [b], at its place, by
    a folder with the id just drawn from [randomStr], no name and the
    content [b] followed by the dragged content; the drag item leaves its
    old place, so a whole folder dragged this way is dissolved into the
    new one and its id and name are gone. *)
Theorem make_child_onto_bare_space items d b w :
  wellFormed items d (DSpace b) MakeChild →
  fst (reconcile items d (DSpace b) MakeChild w)
  = items ≫= λ i,
      if decide (i = origin d) then remainder d
      else if decide (i = TSpace b) then
        [TFolder {| id := nextId w; name := None;
                    content := b :: itemAsFolderContent d |}]
      else [i].
Proof.
  intros (Hinv & Hpd & Hpc & Hdc & Hty).
  pose proof Hinv as (Hnd & Hne & Hids).
  assert (sameFolders d (DSpace b) = false) as Hsf by (by destruct d).
  rewrite reconcile_explicit_distinct by done.
  apply list_bind_ext; [|done]. intros i.
  destruct (decide (i = origin d)); [done|]. simpl.
  destruct (decide (i = TSpace b)); [|done].
  pose proof (pushes_at_container items d (DSpace b) MakeChild (nextId w)
                Hids Hpd Hpc Hdc Hsf) as Hp.
  simpl origin in Hp. rewrite Hp.
  by destruct (decide (MakeChild = MakeChild)).
Qed.

Lemma make_child_onto_bare_space_witness :
  let items := [TFolder F1; TSpace "B"] in
  let d := DFolder {| folder := F1; spaceId := None; open := None |} in
  fst (reconcile items d (DSpace "B") MakeChild (world0 items))
  = [TFolder {| id := "fresh0"; name := None; content := ["B"; "C"; "D"] |}].
Proof.
  intros items d.
  refine (eq_trans (make_child_onto_bare_space items d "B" (world0 items) _) _).
  - by_evaluation.
  - vm_compute. reflexivity.
Defined.

(** X16: a drag item of another entry dropped above or below the space [b]
    of a folder goes into that folder: the folder keeps its place, id and
    name, its content is the old one with the dragged content put in
    immediately before [b] (above) or after it (below); the drag item
    leaves its old place and every other entry is left as it is. *)
Theorem drop_into_other_folder items d cfd b ty w :
  wellFormed items d (DFolder cfd) ty →
  reorderKind ty →
  sameFolders d (DFolder cfd) = false →
  truthy (spaceId cfd) = Some b →
  ∃ l1 l2,
    content (folder cfd) = l1 ++ b :: l2
    ∧ fst (reconcile items d (DFolder cfd) ty w)
      = items ≫= λ i,
          if decide (i = origin d) then remainder d
          else if decide (i = TFolder (folder cfd)) then
            [TFolder (withContent (folder cfd)
               (l1 ++ (if decide (ty = ReorderAbove)
                       then itemAsFolderContent d ++ [b]
                       else b :: itemAsFolderContent d) ++ l2))]
          else [i].
Proof.
  intros (Hinv & Hpd & Hpc & Hdc & Hty) Hre Hsf Hb.
  pose proof Hinv as (Hnd & Hne & Hids).
  pose proof Hpc as [Hcin Hbin]. rewrite Hb in Hbin.
  pose proof (content_NoDup items Hnd _ Hcin) as Hndc.
  destruct (list_elem_of_split _ _ Hbin) as (l1 & l2 & Hsplit).
  exists l1, l2. split; [done|].
  pose proof Hndc as Hndc'. rewrite Hsplit in Hndc'.
  apply NoDup_app in Hndc' as (_ & Hb1 & Hb2).
  apply NoDup_cons in Hb2 as [Hb2 _].
  assert (b ∉ l1) as Hb1' by (intros Hin; apply (Hb1 _ Hin); by left).
  rewrite reconcile_explicit_distinct by done.
  apply list_bind_ext; [|done]. intros i.
  destruct (decide (i = origin d)); [done|]. simpl.
  destruct (decide (i = TFolder (folder cfd))); [|done].
  pose proof (pushes_at_container items d (DFolder cfd) ty (nextId w)
                Hids Hpd Hpc Hdc Hsf) as Hp.
  simpl origin in Hp. rewrite Hp.
  rewrite decide_False by (destruct Hre as [-> | ->]; done).
  rewrite Hb. unfold dropInside.
  rewrite filter_disjoint.
  - by rewrite Hsplit, splice_explicit, spliceAt_reorder by done.
  - intros s Hs.
    apply (child_not_in_container items d (DFolder cfd)); try done.
    by apply distinct_origins.
Qed.

Lemma drop_into_other_folder_witness :
  let items := [TSpace "A"; TFolder F1] in
  let cfd := {| folder := F1; spaceId := Some "D"; open := None |} in
  ∃ l1 l2,
    content F1 = l1 ++ "D" :: l2
    ∧ fst (reconcile items (DSpace "A") (DFolder cfd) ReorderAbove (world0 items))
      = items ≫= λ i,
          if decide (i = TSpace "A") then []
          else if decide (i = TFolder F1) then
            [TFolder (withContent F1
               (l1 ++ (if decide (ReorderAbove = ReorderAbove)
                       then ["A"] ++ ["D"] else "D" :: ["A"]) ++ l2))]
          else [i].
Proof.
  intros items cfd.
  refine (drop_into_other_folder items (DSpace "A") cfd "D" ReorderAbove
            (world0 items) _ _ _ _).
  - by_evaluation.
  - by left.
  - reflexivity.
  - reflexivity.
Defined.

(** X17: a space [a] of a folder dropped above or below that folder itself
    comes out of it: at the folder's place the output has [a] as a bare
    space and, when other spaces are left, the folder with them (id and
    name kept), [a] first for above and last for below; a folder left
    without spaces is not pushed. Every other entry is left as it is. *)
Theorem pull_out_next_to_own_folder items fd cfd a ty w :
  wellFormed items (DFolder fd) (DFolder cfd) ty →
  reorderKind ty →
  sameFolders (DFolder fd) (DFolder cfd) = true →
  truthy (spaceId fd) = Some a →
  truthy (spaceId cfd) = None →
  let rest := filter (λ s, s ≠ a) (content (folder cfd)) in
  let kept := match rest with
              | [] => []
              | _ :: _ => [TFolder (withContent (folder cfd) rest)]
              end in
  fst (reconcile items (DFolder fd) (DFolder cfd) ty w)
  = items ≫= λ i,
      if decide (i = TFolder (folder cfd)) then
        if decide (ty = ReorderAbove) then TSpace a :: kept
        else kept ++ [TSpace a]
      else [i].
Proof.
  intros (Hinv & Hpd & Hpc & Hdc & Hty) Hre Hsf Ha Hc0 rest kept.
  rewrite reconcile_explicit_same by done.
  apply list_bind_ext; [|done]. intros i. simpl.
  destruct (decide (i = TFolder (folder cfd))); [|done].
  unfold pushes. simpl in Hsf. simpl. rewrite Hsf, String.eqb_refl. simpl.
  rewrite decide_False by (destruct Hre as [-> | ->]; done).
  rewrite Hc0, Ha. fold rest.
  assert ((if (0 <? length rest)%nat
           then [TFolder (withContent (folder cfd) rest)] else []) = kept)
    as -> by (unfold kept; by destruct rest).
  destruct Hre as [-> | ->]; repeat case_decide; try done; simpl.
  by rewrite app_nil_r.
Qed.

Lemma pull_out_next_to_own_folder_witness :
  let G := {| id := "G"; name := None; content := ["X"] |} in
  let items := [TSpace "A"; TFolder G] in
  let fd := {| folder := G; spaceId := Some "X"; open := None |} in
  let cfd := {| folder := G; spaceId := None; open := Some true |} in
  fst (reconcile items (DFolder fd) (DFolder cfd) ReorderBelow (world0 items))
  = [TSpace "A"; TSpace "X"].
Proof.
  intros G items fd cfd.
  refine (eq_trans (pull_out_next_to_own_folder items fd cfd "X" ReorderBelow
                      (world0 items) _ _ _ _ _) _).
  - by_evaluation.
  - by right.
  - reflexivity.
  - reflexivity.
  - reflexivity.
  - vm_compute. reflexivity.
Defined.

(** ** Drops between rendered tabs *)

Lemma tabDraggable_inv getRoom items d :
  d ∈ tabDraggables getRoom items →
  (∃ s, d = DSpace s ∧ TSpace s ∈ items)
  ∨ (∃ f s, d = DFolder {| folder := f; spaceId := Some s; open := None |}
            ∧ TFolder f ∈ items ∧ s ∈ content f).
Proof.
  intros (i & Hd & Hi)%list_elem_of_bind. destruct i as [s|f].
  - left. destruct (getRoom s); [|by apply elem_of_nil in Hd].
    apply list_elem_of_singleton in Hd. by exists s.
  - right. apply list_elem_of_fmap in Hd as (s & -> & [_ Hs]%list_elem_of_filter).
    by exists f, s.
Qed.

Lemma truthy_nonempty s : s ≠ "" → truthy (Some s) = Some s.
Proof. intros Hs. simpl. by destruct (String.eqb_spec s ""). Qed.

(** X18: in a sidebar that satisfies the invariants and has no empty room
    id, a drop of one rendered tab onto another one, with an instruction of
    the contract and [make-child] offered by bare tabs only (as the block
    list of [useDropTarget] asks), is a well-formed input of the
    reconciler, and if both tabs are in one folder it is a reorder of one
    space relative to another. *)
Theorem tab_drops_are_well_formed getRoom items d c ty :
  invariants items →
  "" ∉ allSpaces items →
  d ∈ tabDraggables getRoom items →
  c ∈ tabDraggables getRoom items →
  d ≠ c →
  contractKind ty →
  (ty = MakeChild → draggedSpace c = None) →
  wellFormed items d c ty ∧ sameFolderDropOk d c ty.
Proof.
  intros Hinv Hne Hd Hc Hdc Hty Hblock.
  pose proof Hinv as (Hnd & _ & Hids).
  assert (∀ x, x ∈ tabDraggables getRoom items →
            present items x
            ∧ ∀ f s, x = DFolder {| folder := f; spaceId := Some s; open := None |} →
                     draggedSpace x = Some s) as Htab.
  { intros x [(s & -> & Hs)|(f & s & -> & Hf & Hs)]%tabDraggable_inv.
    - split; [done|]. by intros ??.
    - assert (s ≠ "") as Hs0.
      { intros ->. apply Hne. by apply (spaces_in_allSpaces items (TFolder f)). }
      split.
      + split; [done|]. simpl. by destruct (String.eqb_spec s "").
      + intros f' s' [= <- <-]. by apply truthy_nonempty. }
  destruct (Htab d Hd) as [Hpd Hds], (Htab c Hc) as [Hpc Hcs].
  split; [done|]. intros Hsf.
  apply tabDraggable_inv in Hd as [(s & -> & _)|(f & s & -> & Hf & Hs)];
    [done|].
  apply tabDraggable_inv in Hc as [(s' & -> & _)|(f' & s' & -> & Hf' & Hs')];
    [done|].
  rewrite (Hds f s eq_refl), (Hcs f' s' eq_refl). split_and!.
  - intros Hmk. specialize (Hblock Hmk). by rewrite (Hcs f' s' eq_refl) in Hblock.
  - by eexists.
  - intros [= <-]. apply Hdc. simpl in Hsf. apply String.eqb_eq in Hsf.
    by rewrite (folder_id_inj items Hids f f' Hf Hf' Hsf).
Qed.

Lemma tab_drops_are_well_formed_witness :
  let items := [TSpace "A"; TSpace "B"; TFolder F1] in
  let d := DFolder {| folder := F1; spaceId := Some "C"; open := None |} in
  let c := DFolder {| folder := F1; spaceId := Some "D"; open := None |} in
  wellFormed items d c ReorderAbove ∧ sameFolderDropOk d c ReorderAbove.
Proof.
  intros items d c.
  refine (tab_drops_are_well_formed (λ _, true) items d c ReorderAbove
            _ _ _ _ _ _ _).
  - by_evaluation.
  - by_evaluation.
  - by_evaluation.
  - by_evaluation.
  - discriminate.
  - by left.
  - discriminate.
Defined.

(** ** The invariants are kept *)

#[global] Instance folderIds_Permutation : Proper ((≡ₚ) ==> (≡ₚ)) folderIds.
Proof. unfold folderIds, foldersOf. solve_proper. Qed.

Lemma folderIds_app l k : folderIds (l ++ k) = folderIds l ++ folderIds k.
Proof. unfold folderIds, foldersOf. by rewrite bind_app, fmap_app. Qed.

Lemma folderIds_cons i l : folderIds (i :: l) = folderIds [i] ++ folderIds l.
Proof. apply (folderIds_app [i] l). Qed.

Lemma NoDup_submseteq_inv {A} (l k : list A) : k ⊆+ l → NoDup l → NoDup k.
Proof.
  intros [k' Hk]%submseteq_Permutation Hnd. rewrite Hk in Hnd.
  by apply NoDup_app in Hnd as (? & _ & _).
Qed.

Lemma sameFolderDropOk_spliceOk d c ty : sameFolderDropOk d c ty → spliceOk d c.
Proof. intros Hok Hsf _. by destruct (Hok Hsf) as (_ & ? & ?). Qed.

(** The ids left at the old place and the id of the moved entry are those
    of the origin of the drag item. *)
Lemma remainder_moved_ids d :
  folderIds (remainder d) ++ folderIds [movedEntry d] ⊆+ folderIds [origin d].
Proof.
  destruct d as [s|fd]; [done|]. unfold remainder, movedEntry.
  destruct (truthy (spaceId fd)); [|done].
  destruct (length _ =? 0)%nat; [apply submseteq_nil_l|done].
Qed.

Lemma dropAround_distinct_ids d c ty i :
  reorderKind ty → sameFolders d c = false →
  folderIds (dropAround d c ty i) ≡ₚ folderIds [movedEntry d] ++ folderIds [i].
Proof.
  intros Hre Hsf. rewrite dropAround_distinct by done.
  destruct (decide (ty = ReorderAbove)).
  - by rewrite (folderIds_cons (movedEntry d) [i]).
  - rewrite (folderIds_cons i [movedEntry d]). apply Permutation_app_comm.
Qed.

(** The ids pushed at the container, for a drop between two entries. *)
Lemma container_ids items d c ty fid :
  NoDup (folderIds items) → present items d → present items c →
  d ≠ c → sameFolders d c = false → contractKind ty →
  folderIds (pushes fid d c ty (origin c))
  ⊆+ (if mintsFolder c ty then [fid] else [])
     ++ folderIds [movedEntry d] ++ folderIds [origin c].
Proof.
  intros Hids Hpd Hpc Hdc Hsf Hty.
  rewrite (pushes_at_container items) by done. unfold mintsFolder.
  destruct (decide (ty = MakeChild)) as [->|Hmk].
  { rewrite bool_decide_eq_true_2 by done. unfold merged.
    destruct c as [b|cfd]; simpl.
    - apply (submseteq_inserts_r _ [fid] [fid]). done.
    - apply submseteq_inserts_l. done. }
  rewrite bool_decide_eq_false_2 by done. simpl.
  pose proof (contract_reorder ty Hty Hmk) as Hre.
  destruct c as [b|cfd].
  - by rewrite dropAround_distinct_ids.
  - destruct (truthy (spaceId cfd)).
    + apply submseteq_inserts_l. done.
    + by rewrite dropAround_distinct_ids.
Qed.

(** The ids pushed for a space moved within its folder. *)
Lemma same_folder_ids items d c ty fid :
  NoDup (folderIds items) → present items d → present items c →
  reorderKind ty → sameFolders d c = true → is_Some (draggedSpace d) →
  folderIds (pushes fid d c ty (origin c)) ⊆+ folderIds [origin c].
Proof.
  intros Hids Hpd Hpc Hre Hsf [a Ha].
  destruct (sameFolders_origin items Hids d c) as (fd & cfd & -> & -> & Hf);
    [done..|].
  unfold pushes. rewrite Hsf. simpl. rewrite String.eqb_refl.
  rewrite decide_False by (destruct Hre as [-> | ->]; done).
  simpl in Ha. destruct (truthy (spaceId cfd)); [done|].
  unfold dropAround. simpl draggedSpace. rewrite Ha. simpl in Hsf.
  simpl sameFolders. rewrite Hsf, !folderIds_app.
  assert (∀ b, folderIds (when b (TSpace a)) = []) as Hw by (by intros []).
  rewrite !Hw, app_nil_r. simpl.
  destruct (0 <? _)%nat; [done|apply submseteq_nil_l].
Qed.

(** X19: the reconciler keeps the invariants of the sidebar: for a
    well-formed input in which a drop within one folder is a reorder of one
    of its spaces, and for a new folder id that no folder carries yet, the
    output again has every space in one place only, no empty folder and no
    folder id twice. *)
Theorem reconcile_keeps_invariants items d c ty w :
  wellFormed items d c ty →
  sameFolderDropOk d c ty →
  (mintsFolder c ty = true → nextId w ∉ folderIds items) →
  invariants (fst (reconcile items d c ty w)).
Proof.
  intros Hwf Hok Hfresh.
  pose proof Hwf as (Hinv & Hpd & Hpc & Hdc & Hty).
  pose proof Hinv as (Hnd & Hne & Hids).
  split_and!.
  - by rewrite (reconcile_spaces_perm items d c ty w Hwf Hok).
  - rewrite reconcile_pushes by done.
    apply noEmptyFolder_bind. intros i Hi.
    apply pushes_nonempty; try done.
    + eapply noEmptyFolder_elem; [done|]. by apply present_origin.
    + eapply noEmptyFolder_elem; [done|]. by apply present_origin.
    + intros cfd csp. apply (container_space_stays items d c ty); [done|].
      by apply (sameFolderDropOk_spliceOk d c ty).
    + by eapply noEmptyFolder_elem.
  - rewrite reconcile_pushes by done.
    apply (NoDup_submseteq_inv
             ((if mintsFolder c ty then [nextId w] else []) ++ folderIds items)).
    2:{ destruct (mintsFolder c ty); [|done].
        apply NoDup_cons. split; [by apply Hfresh|done]. }
    destruct (sameFolders d c) eqn:Hsf.
    + destruct Hok as (Hmk & Hsome & Hdiff); [done|].
      destruct (pushes_same_folder items d c ty (nextId w)) as (k & Hk & ->);
        [done..|].
      apply submseteq_inserts_l.
      rewrite Hk, folderIds_app, (folderIds_cons (origin c) k).
      apply submseteq_skips_r.
      apply (same_folder_ids items); auto using contract_reorder.
    + destruct (pushes_distinct items d c ty (nextId w)) as (k & Hk & ->);
        [done..|].
      rewrite Hk, !folderIds_app, (folderIds_cons (origin d)),
        (folderIds_cons (origin c) k).
      rewrite !app_assoc. apply submseteq_skips_r.
      etrans.
      { apply submseteq_skips_l. by apply (container_ids items). }
      rewrite (app_assoc (folderIds (remainder d))).
      rewrite (Permutation_app_comm (folderIds (remainder d))).
      rewrite <-!app_assoc. apply submseteq_skips_l.
      rewrite !app_assoc. apply submseteq_skips_r.
      apply remainder_moved_ids.
Qed.

Lemma reconcile_keeps_invariants_witness :
  let items := [TSpace "A"; TSpace "B"; TFolder F1] in
  invariants (fst (reconcile items (DSpace "A") (DSpace "B") MakeChild
                     (world0 items))).
Proof.
  intros items.
  refine (reconcile_keeps_invariants items (DSpace "A") (DSpace "B") MakeChild
            (world0 items) _ _ _).
  - by_evaluation.
  - by_evaluation.
  - intros _. by_evaluation.
Defined.

(** * The reconciler on the drops the sidebar offers *)

(** ** The rendered tabs *)

Lemma tab_forms getRoom items x :
  "" ∉ allSpaces items →
  x ∈ tabDraggables getRoom items →
  (∃ s, x = DSpace s ∧ TSpace s ∈ items)
  ∨ (∃ f s, x = DFolder {| folder := f; spaceId := Some s; open := None |}
            ∧ TFolder f ∈ items ∧ s ∈ content f ∧ draggedSpace x = Some s).
Proof.
  intros Hne [(s & -> & Hs)|(f & s & -> & Hf & Hs)]%tabDraggable_inv.
  - left. by exists s.
  - right. exists f, s. split_and!; [done..|].
    apply truthy_nonempty. intros ->.
    apply Hne. by apply (spaces_in_allSpaces items (TFolder f)).
Qed.

Lemma tab_present getRoom items x :
  "" ∉ allSpaces items → x ∈ tabDraggables getRoom items → present items x.
Proof.
  intros Hne Hin.
  destruct (tab_forms getRoom items x Hne Hin)
    as [(s & -> & Hs)|(f & s & -> & Hf & Hs & Hx)]; [done|].
  split; [done|]. change (truthy (Some s) = Some s) in Hx.
  change (match truthy (Some s) with
          | Some sp => sp ∈ content f
          | None => True
          end). by rewrite Hx.
Qed.

(** Two tabs of one folder stand for two spaces of it. *)
Lemma tabs_of_one_folder getRoom items d c :
  NoDup (folderIds items) → "" ∉ allSpaces items →
  d ∈ tabDraggables getRoom items → c ∈ tabDraggables getRoom items →
  d ≠ c → sameFolders d c = true →
  ∃ f a b, d = DFolder {| folder := f; spaceId := Some a; open := None |}
           ∧ c = DFolder {| folder := f; spaceId := Some b; open := None |}
           ∧ draggedSpace d = Some a ∧ draggedSpace c = Some b
           ∧ a ≠ b ∧ a ∈ content f ∧ b ∈ content f.
Proof.
  intros Hids Hne Hd Hc Hdc Hsf.
  destruct (tab_forms getRoom items d Hne Hd)
    as [(s & -> & _)|(f & a & -> & Hf & Ha & Hda)]; [done|].
  destruct (tab_forms getRoom items c Hne Hc)
    as [(s & -> & _)|(f' & b & -> & Hf' & Hb & Hcb)]; [done|].
  apply String.eqb_eq in Hsf. simpl in Hsf.
  pose proof (folder_id_inj items Hids f f' Hf Hf' Hsf) as <-.
  exists f, a, b. split_and!; [done..| |done|done].
  intros <-. by apply Hdc.
Qed.

(** A drop between tabs is a well-formed input of the reconciler, and
    within one folder it moves one space next to another one. *)
Lemma tabDrop_inputs getRoom items d c ty :
  tabDrop getRoom items d c ty →
  wellFormed items d c ty ∧ sameFolderDropOk d c ty.
Proof.
  intros (Hinv & Hne & Hd & Hc & Hdc & Hty & Hblock).
  pose proof Hinv as (_ & _ & Hids).
  split; [by split_and!; eauto using tab_present|].
  intros Hsf.
  destruct (tabs_of_one_folder getRoom items d c)
    as (f & a & b & -> & -> & Hda & Hcb & Hab & _); [done..|].
  rewrite Hda, Hcb. split_and!.
  - intros Hmk. specialize (Hblock Hmk). congruence.
  - by eexists.
  - congruence.
Qed.


(** ** No duplication, no loss, no empty folder *)



(** C4: for every input the sidebar hands to the reconciler with
    [reorder-above] or [reorder-below], the set of space identifiers of
    the output equals that of the input: none is lost and none is
    gained. *)
Theorem tab_drop_reorder_preserves_space_set getRoom items d c ty w :
  tabDrop getRoom items d c ty →
  reorderKind ty →
  sameSpaces items (fst (reconcile items d c ty w)).
Proof.
  intros [Hwf Hok]%tabDrop_inputs Hre.
  apply reorder_preserves_space_set; [done..|].
  by apply (sameFolderDropOk_spliceOk d c ty).
Qed.

Lemma tab_drop_reorder_preserves_space_set_witness :
  let items := [TSpace "A"; TSpace "B"; TFolder F1] in
  let d := DFolder {| folder := F1; spaceId := Some "C"; open := None |} in
  let c := DFolder {| folder := F1; spaceId := Some "D"; open := None |} in
  sameSpaces items (fst (reconcile items d c ReorderBelow (world0 items))).
Proof.
  intros items d c.
  apply (tab_drop_reorder_preserves_space_set (λ _, true) items d c ReorderBelow).
  - by_evaluation.
  - by right.
Defined.




(** ** Self-drops *)

Lemma tabSpace_tabDraggables getRoom items :
  tabSpace <$> tabDraggables getRoom items
  = filter (λ s, getRoom s = true) (allSpaces items).
Proof.
  induction items as [|i rest IH]; [done|].
  unfold tabDraggables, allSpaces in *.
  rewrite !bind_cons, fmap_app, filter_app, IH. f_equal.
  destruct i as [s|f]; simpl.
  - rewrite filter_cons, filter_nil. by destruct (getRoom s).
  - rewrite <-list_fmap_compose. apply list_fmap_id.
Qed.

(** In a sidebar without a space in two places, no two tabs have the same
    draggable. *)
Lemma tabDraggables_NoDup getRoom items :
  NoDup (allSpaces items) → NoDup (tabDraggables getRoom items).
Proof.
  intros Hnd. apply (NoDup_fmap_1 tabSpace).
  rewrite tabSpace_tabDraggables. by apply NoDup_filter.
Qed.

Lemma deref_tab tabs k d :
  tabs !! k = Some d → deref (tabHeap tabs) (tabValue k d) = Some d.
Proof.
  intros Hk. destruct d as [s|fd]; [done|]. simpl. unfold tabHeap, Heap.
  by rewrite lookup_omap, lookup_map_seq_0, Hk.
Qed.

(** Among the tabs of one render, the same run-time value means the same
    draggable. *)
Lemma tabValue_inj tabs k k' d c :
  NoDup tabs → tabs !! k = Some d → tabs !! k' = Some c →
  tabValue k d = tabValue k' c ↔ d = c.
Proof.
  intros Hnd Hk Hk'. split.
  - destruct d as [s|fd], c as [s'|cfd]; simpl; try done.
    + by intros [= ->].
    + intros [= <-]. congruence.
  - intros <-. by rewrite (NoDup_lookup tabs k k' d Hnd Hk Hk').
Qed.

Lemma dropTargetsAt_others tabs k d hits :
  NoDup tabs → tabs !! k = Some d →
  Forall (λ t, item t ∈ tabs ∧ item t ≠ d) (dropTargetsAt tabs (tabValue k d) hits).
Proof.
  intros Hnd Hk. apply Forall_forall. intros t.
  unfold dropTargetsAt. intros ([k' ins] & Ht & _)%list_elem_of_bind.
  simpl in Ht. destruct (tabs !! k') as [c|] eqn:Hk'; [|by apply elem_of_nil in Ht].
  destruct (canDrop (tabValue k' c) (tabValue k d)) eqn:Hcan;
    [|by apply elem_of_nil in Ht].
  rewrite (deref_tab tabs k' c Hk') in Ht.
  apply list_elem_of_singleton in Ht as ->. simpl. split.
  - by eapply list_elem_of_lookup_2.
  - intros ->. unfold canDrop in Hcan.
    assert (strictNotEqual (tabValue k d) (tabValue k' d) = false) as Hfalse
      by (by apply strictNotEqual_false, (tabValue_inj tabs k k' d d)).
    congruence.
Qed.

(** C9: [canDrop], the one predicate of every drop target of the sidebar,
    returns false exactly when the drag item is the candidate drop
    target's own draggable; so of the tabs under the pointer only those of
    other draggables are handed to [onDrop], a drop on the dragged tab
    alone ends the drag and nothing more, and whenever the reorder
    callback runs, its container is the draggable of another tab than the
    dragged one. *)
Theorem self_drop_rejected_before_reconcile
    (mk ps : SidebarItems → SidebarItems) (getRoom : string → bool)
    (k : nat) (d : SidebarDraggable)
    (hits : list (nat * option InstructionType)) (w : World) :
  let tabs := tabDraggables getRoom (sidebarItems w) in
  NoDup (allSpaces (sidebarItems w)) →
  tabs !! k = Some d →
  (∀ k' c, tabs !! k' = Some c →
     (canDrop (tabValue k' c) (tabValue k d) = false ↔ d = c))
  ∧ Forall (λ t, item t ∈ tabs ∧ item t ≠ d)
      (dropTargetsAt tabs (tabValue k d) hits)
  ∧ ((∀ hit, hit ∈ hits → hit.1 = k) →
     dropTab mk ps getRoom k hits w = setDraggingItem None w)
  ∧ (dropTab mk ps getRoom k hits w = setDraggingItem None w
     ∨ ∃ c ty, c ∈ tabs ∧ c ≠ d
               ∧ dropTab mk ps getRoom k hits w
                 = (setDraggingItem None;; onReorder mk ps d c ty) w).
Proof.
  intros tabs Hspaces Hk.
  pose proof (tabDraggables_NoDup getRoom _ Hspaces) as Hnd. fold tabs in Hnd.
  pose proof (dropTargetsAt_others tabs k d hits Hnd Hk) as Hothers.
  assert (∀ k' c, tabs !! k' = Some c →
            (canDrop (tabValue k' c) (tabValue k d) = false ↔ d = c)) as Hcan.
  { intros k' c Hk'. unfold canDrop.
    by rewrite strictNotEqual_false, (tabValue_inj tabs k k' d c). }
  assert (dropTab mk ps getRoom k hits w
          = onDrop setDraggingItem (onReorder mk ps) d
              (dropTargetsAt tabs (tabValue k d) hits) w) as Hrun.
  { unfold dropTab. fold tabs. by rewrite Hk, (deref_tab tabs k d Hk). }
  split_and!; [done|done| |].
  - intros Hself. rewrite Hrun.
    assert (dropTargetsAt tabs (tabValue k d) hits = []) as ->; [|done].
    unfold dropTargetsAt. clear Hothers Hrun.
    induction hits as [|[k' ins] rest IH]; [done|].
    rewrite bind_cons, IH by (intros hit Hhit; apply Hself; by right).
    rewrite (Hself (k', ins)) by left. simpl. rewrite Hk.
    by rewrite (proj2 (Hcan k d Hk) eq_refl).
  - rewrite Hrun.
    destruct (dropTargetsAt tabs (tabValue k d) hits) as [|t rest] eqn:Ht;
      [by left|].
    unfold onDrop. destruct (instructionType t) as [ty|] eqn:Hty.
    + right. exists (item t), ty. apply Forall_inv in Hothers as [Hin Hne].
      by split_and!.
    + by left.
Qed.

Lemma self_drop_rejected_before_reconcile_witness :
  let items := [TSpace "A"; TSpace "B"; TFolder F1] in
  dropTab (λ x, x) (λ x, x) (λ _, true) 2 [(2, Some ReorderAbove)] (world0 items)
  = setDraggingItem None (world0 items).
Proof.
  intros items.
  assert (NoDup (allSpaces (sidebarItems (world0 items)))) as Hnd
    by by_evaluation.
  destruct (self_drop_rejected_before_reconcile (λ x, x) (λ x, x) (λ _, true) 2
              (DFolder {| folder := F1; spaceId := Some "C"; open := None |})
              [(2, Some ReorderAbove)] (world0 items) Hnd eq_refl)
    as (_ & _ & Hself & _).
  apply Hself. intros hit Hhit.
  apply list_elem_of_singleton in Hhit. by rewrite Hhit.
Defined.
